(** * bollie-retain.c: the capture/loop engine of the Bollie Retain LV2 plugin

    A shallow embedding of [instantiate], [activate] and [run] of
    src/bollie-retain.c, and the properties of the capture/loop state
    machine, its cursor arithmetic and its gain smoothing.

    Conventions of the embedding:
    - a C [int] is a [Z]; an operation whose mathematical result leaves the
      32-bit range is undefined behaviour and yields [Fault IntOverflow];
      [1/n] with [n = 0] yields [Fault DivByZero];
    - the two tapes [buffer_l], [buffer_r] are total maps [Z -> F] accessed
      only through bounds-checked loads and stores: an index outside
      [0, MAX_TAPE_LEN) yields [Fault OutOfBounds]; every index that is
      accessed is appended to a log, so that statements about "every index
      read or written" can be made;
    - the C [float] arithmetic is a parameter (class [SampleArith]); it is
      instantiated with IEEE binary32 ([SpecFloat], round to nearest even,
      every operation rounded), which is the arithmetic of the code, and
      with the real numbers, an idealised arithmetic that only serves as a
      second instance of the statements made for every arithmetic;
    - [powf] of the C library is a parameter of [run]. *)

From Stdlib Require Import ZArith List Bool Lia.
From Stdlib Require Import Floats.SpecFloat.
From Stdlib Require Import Reals Lra.
Import ListNotations.

Local Open Scope Z_scope.

Set Implicit Arguments.

(** ** Results of fallible C evaluation *)

Inductive fault : Type :=
| DivByZero      (* integer division by zero *)
| IntOverflow    (* signed overflow of an [int] expression *)
| OutOfBounds    (* array index outside the array *)
| BadConversion. (* floating value not representable in [int] *)

Inductive res (A : Type) : Type :=
| Done (a : A)
| Fault (f : fault).

Arguments Done {A} a.
Arguments Fault {A} f.

Definition res_bind {A B} (r : res A) (k : A -> res B) : res B :=
  match r with
  | Done a => k a
  | Fault f => Fault f
  end.

(** ** C [int] arithmetic *)

Module CInt.

Definition INT_MIN : Z := -2147483648.
Definition INT_MAX : Z := 2147483647.

Definition in_range (z : Z) : bool := (INT_MIN <=? z) && (z <=? INT_MAX).

Definition chk (z : Z) : res Z :=
  if in_range z then Done z else Fault IntOverflow.

Definition add (a b : Z) : res Z := chk (a + b).
Definition sub (a b : Z) : res Z := chk (a - b).
Definition mul (a b : Z) : res Z := chk (a * b).

(** C division truncates toward zero. *)
Definition div (a b : Z) : res Z :=
  if b =? 0 then Fault DivByZero else chk (Z.quot a b).

End CInt.

(** ** The arithmetic of C [float] *)

Class SampleArith (F : Type) : Type := {
  f_of_int : Z -> F;          (* conversion of an [int] value to [float] *)
  f_add : F -> F -> F;
  f_sub : F -> F -> F;
  f_mul : F -> F -> F;
  f_opp : F -> F;
  f_ltb : F -> F -> bool;     (* [x < y] *)
  f_eqb : F -> F -> bool;     (* [x == y] *)
  f_0_01 : F;                 (* the literal 0.01f *)
  f_0_99 : F;                 (* the literal 0.99f *)
  f_0_04 : F;                 (* the literal 0.04f *)
  f_10 : F                    (* the literal 10.0f *)
}.

(** IEEE binary32, the format of [float]. *)
Module Binary32.

Definition prec : Z := 24.
Definition emax : Z := 128.

Definition of_int (z : Z) : spec_float := binary_normalize prec emax z 0 false.
Definition add := SFadd prec emax.
Definition mul := SFmul prec emax.
Definition div := SFdiv prec emax.

(** A decimal literal [n/d] denotes the binary32 number nearest to it,
    which is what the correctly rounded quotient of the two exactly
    represented integers gives. *)
Definition literal (n d : Z) : spec_float := div (of_int n) (of_int d).

#[global] Instance arith : SampleArith spec_float := {|
  f_of_int := of_int;
  f_add := add;
  f_sub := SFsub prec emax;
  f_mul := mul;
  f_opp := SFopp;
  f_ltb := SFltb;
  f_eqb := SFeqb;
  f_0_01 := literal 1 100;
  f_0_99 := literal 99 100;
  f_0_04 := literal 4 100;
  f_10 := of_int 10
|}.

(** [x * y + z] with one rounding.  A C compiler may contract a product and
    the addition it feeds into one operation (ISO C 6.5, [FP_CONTRACT]), and
    does on targets with a fused multiply-add; the product of two finite
    numbers is then held exactly until the sum is rounded. *)
Definition fma (x y z : spec_float) : spec_float :=
  match x, y with
  | S754_finite sx mx ex, S754_finite sy my ey =>
      add (S754_finite (xorb sx sy) (mx * my) (ex + ey)) z
  | _, _ => add (mul x y) z
  end.

End Binary32.

(** IEEE binary64, the format of [double] (the sample rate). *)
Module Binary64.

Definition prec : Z := 53.
Definition emax : Z := 1024.

Definition of_int (z : Z) : spec_float := binary_normalize prec emax z 0 false.
Definition mul := SFmul prec emax.

(** Conversion of a [double] to [int]: the fractional part is discarded;
    NaN, infinities and values outside the range of [int] are undefined. *)
Definition trunc (x : spec_float) : res Z :=
  match x with
  | S754_zero _ => Done 0
  | S754_finite s m e =>
      let a := if 0 <=? e then Z.shiftl (Zpos m) e else Z.shiftr (Zpos m) (- e) in
      let z := if s then - a else a in
      if CInt.in_range z then Done z else Fault BadConversion
  | _ => Fault BadConversion
  end.

(** [(int) ceil (x)]: [ceil] of a double is a double, with the same
    integer value as the mathematical ceiling. *)
Definition ceil_int (x : spec_float) : res Z :=
  match x with
  | S754_zero _ => Done 0
  | S754_finite s m e =>
      let z :=
        if 0 <=? e then (if s then - Z.shiftl (Zpos m) e else Z.shiftl (Zpos m) e)
        else if s then - Z.shiftr (Zpos m) (- e)
        else - Z.shiftr (- Zpos m) (- e) in
      if CInt.in_range z then Done z else Fault BadConversion
  | _ => Fault BadConversion
  end.

End Binary64.

(** The real numbers: an idealised arithmetic without rounding, whose
    literals are the decimals themselves.  It is not the arithmetic of the
    code, whose literals [0.01f], [0.99f] and [0.04f] are binary32 numbers
    next to these decimals. *)
Module Exact.

#[global] Instance arith : SampleArith R := {|
  f_of_int := IZR;
  f_add := Rplus;
  f_sub := Rminus;
  f_mul := Rmult;
  f_opp := Ropp;
  f_ltb := fun x y => if Rlt_dec x y then true else false;
  f_eqb := fun x y => if Req_dec_T x y then true else false;
  f_0_01 := (1 / 100)%R;
  f_0_99 := (99 / 100)%R;
  f_0_04 := (4 / 100)%R;
  f_10 := 10%R
|}.

End Exact.

(** ** The plugin instance *)

Definition MAX_TAPE_LEN : Z := 960000.

(** [struct BollieRetain] without the port pointers, which are arguments of
    [run].  [listening] and [looping] are [int]s that only ever hold the
    enumerators [false] and [true]. *)
Record BollieRetain (F : Type) : Type := mkBollieRetain {
  rate : spec_float;
  n_loop_samples : Z;
  n_fade_samples : Z;
  pos_w : Z;
  pos_r : Z;
  listening : bool;
  looping : bool;
  dry_gain : F;
  wet_gain : F;
  buffer_l : Z -> F;
  buffer_r : Z -> F
}.

Arguments mkBollieRetain {F}.

(** ** The tape memory, with its access log *)

Record tape (F : Type) : Type := mkTape {
  tape_l : Z -> F;
  tape_r : Z -> F;
  touched : list Z    (* indices accessed so far, oldest first *)
}.

Arguments mkTape {F}.

Definition M (F A : Type) : Type := tape F -> res (A * tape F).

Definition ret {F A} (a : A) : M F A := fun t => Done (a, t).

Definition bind {F A B} (c : M F A) (k : A -> M F B) : M F B :=
  fun t => match c t with
           | Done (a, t') => k a t'
           | Fault f => Fault f
           end.

Definition lift {F A} (r : res A) : M F A :=
  fun t => match r with
           | Done a => Done (a, t)
           | Fault f => Fault f
           end.

Declare Scope tape_scope.
Delimit Scope tape_scope with tape.
Notation "x <- c ;; k" := (bind c (fun x => k))
  (at level 61, c at next level, right associativity) : tape_scope.
Notation "' pat <- c ;; k" := (bind c (fun x => match x with pat => k end))
  (at level 61, pat pattern, c at next level, right associativity) : tape_scope.

Definition in_tape (i : Z) : bool := (0 <=? i) && (i <? MAX_TAPE_LEN).

Definition upd {F} (b : Z -> F) (i : Z) (v : F) : Z -> F :=
  fun j => if j =? i then v else b j.

Inductive channel : Type := Left | Right.

Definition load {F} (c : channel) (i : Z) : M F F :=
  fun t =>
    if in_tape i then
      Done (match c with Left => tape_l t i | Right => tape_r t i end,
            mkTape (tape_l t) (tape_r t) (touched t ++ [i]))
    else Fault OutOfBounds.

Definition store {F} (c : channel) (i : Z) (v : F) : M F unit :=
  fun t =>
    if in_tape i then
      Done (tt,
            match c with
            | Left => mkTape (upd (tape_l t) i v) (tape_r t) (touched t ++ [i])
            | Right => mkTape (tape_l t) (upd (tape_r t) i v) (touched t ++ [i])
            end)
    else Fault OutOfBounds.

(** ** [instantiate] and [activate] *)

Section Lifecycle.

Context {F : Type} {A : SampleArith F}.

(** [instantiate]: [calloc] zeroes the whole instance; the two lengths are
    each assigned twice, the second assignment overwriting the first.
    ([calloc] is taken to succeed; the result is never tested.) *)
Definition instantiate (rate : spec_float) : res (BollieRetain F) :=
  res_bind (Binary64.ceil_int (Binary64.mul (Binary32.literal 2 10) rate)) (fun _ =>
  res_bind (Binary64.trunc rate) (fun n_fade =>
  res_bind (Binary64.ceil_int (Binary64.mul (Binary32.literal 5 10) rate)) (fun _ =>
  res_bind (Binary64.trunc (Binary64.mul (Binary64.of_int 5) rate)) (fun n_loop =>
  Done {| rate := rate;
          n_loop_samples := n_loop;
          n_fade_samples := n_fade;
          pos_w := 0;
          pos_r := 0;
          listening := false;
          looping := false;
          dry_gain := f_of_int 0;
          wet_gain := f_of_int 0;
          buffer_l := fun _ => f_of_int 0;
          buffer_r := fun _ => f_of_int 0 |})))).

(** [activate]: silence both tapes and reset the state variables. *)
Definition activate (self : BollieRetain F) : BollieRetain F :=
  {| rate := rate self;
     n_loop_samples := n_loop_samples self;
     n_fade_samples := n_fade_samples self;
     pos_r := 0;
     pos_w := 0;
     dry_gain := f_of_int 0;
     wet_gain := f_of_int 0;
     listening := false;
     looping := true;
     buffer_l := fun i => if in_tape i then f_of_int 0 else buffer_l self i;
     buffer_r := fun i => if in_tape i then f_of_int 0 else buffer_r self i |}.

End Lifecycle.

(** ** [run] *)

(** The local variables of [run] that shadow the instance fields during a
    block and are written back when the block ends. *)
Record locals (F : Type) : Type := mkLocals {
  l_dry_gain : F;
  l_wet_gain : F;
  l_pos_w : Z;
  l_pos_r : Z;
  l_listening : bool;
  l_looping : bool
}.

Arguments mkLocals {F}.

(** What [run] leaves behind: the instance, the two output blocks and the
    tape indices it accessed, in order. *)
Record block (F : Type) : Type := mkBlock {
  final : BollieRetain F;
  output_l : list F;
  output_r : list F;
  accesses : list Z
}.

Arguments mkBlock {F}.

Section Run.

Context {F : Type} {A : SampleArith F}.
Variable powf : F -> F -> F.

Local Open Scope tape_scope.

(** Lines 186-201: the gain targets [(target_dry_gain, target_wet_gain)]. *)
Definition gain_targets (ctl_blend : F) : F * F :=
  if f_ltb (f_of_int 0) ctl_blend && f_ltb ctl_blend (f_of_int 50) then
    (f_of_int 1, powf f_10 (f_mul (f_sub ctl_blend (f_of_int 50)) f_0_04))
  else if f_ltb ctl_blend (f_of_int 100) && f_ltb (f_of_int 50) ctl_blend then
    (powf f_10 (f_mul (f_sub ctl_blend (f_of_int 50)) (f_opp f_0_04)),
     f_of_int 1)
  else if f_eqb ctl_blend (f_of_int 50) then
    (f_of_int 1, f_of_int 1)
  else if f_eqb ctl_blend (f_of_int 100) then
    (f_of_int 0, f_of_int 1)
  else
    (f_of_int 1, f_of_int 0).

(** Lines 207-208: one step of the parameter smoothing. *)
Definition smooth (target gain : F) : F :=
  f_add (f_mul target f_0_01) (f_mul gain f_0_99).

(** Lines 215-223: the capture coefficient at write position [pos_w],
    evaluated in the branch [pos_w < n_loop_samples].  The expression
    [1/n_fade_samples * pos_w] has only [int] operands: the quotient and
    the product are [int]s, converted to [float] by the assignment. *)
Definition fade_coeff (n_fade_samples n_loop_samples pos_w : Z) : res F :=
  if pos_w <? n_fade_samples then
    res_bind (CInt.div 1 n_fade_samples) (fun q =>
    res_bind (CInt.mul q pos_w) (fun c =>
    Done (f_of_int c)))
  else
    res_bind (CInt.sub n_loop_samples n_fade_samples) (fun d =>
    if d <=? pos_w then
      res_bind (CInt.div 1 n_fade_samples) (fun q =>
      res_bind (CInt.sub n_loop_samples 1) (fun a =>
      res_bind (CInt.sub a pos_w) (fun b =>
      res_bind (CInt.mul q b) (fun c =>
      Done (f_of_int c)))))
    else Done (f_of_int 1)).

(** Lines 258-259: the mix of the dry and the wet sample. *)
Definition mix (cur_s wet_s dry_gain wet_gain : F) : F :=
  f_add (f_mul cur_s dry_gain) (f_mul wet_s wet_gain).

(** Lines 205-259: the body of the sample loop, for the input samples
    [cur_s_l], [cur_s_r]; it yields the new locals and the two output
    samples. *)
Definition sample_step (n_fade_samples n_loop_samples : Z)
    (target_dry_gain target_wet_gain : F) (cur_s_l cur_s_r : F)
    (v : locals F) : M F (locals F * F * F) :=
  let wet_gain := smooth target_wet_gain (l_wet_gain v) in
  let dry_gain := smooth target_dry_gain (l_dry_gain v) in
  if l_listening v && negb (l_looping v) then
    if l_pos_w v <? n_loop_samples then
      coeff <- lift (fade_coeff n_fade_samples n_loop_samples (l_pos_w v)) ;;
      _ <- store Left (l_pos_w v) (f_mul cur_s_l coeff) ;;
      _ <- store Right (l_pos_w v) (f_mul cur_s_r coeff) ;;
      pos_w' <- lift (CInt.add (l_pos_w v) 1) ;;
      ret (mkLocals dry_gain wet_gain pos_w' (l_pos_r v) (l_listening v) (l_looping v),
           mix cur_s_l (f_of_int 0) dry_gain wet_gain,
           mix cur_s_r (f_of_int 0) dry_gain wet_gain)
    else
      ret (mkLocals dry_gain wet_gain 0 (l_pos_r v) false true,
           mix cur_s_l (f_of_int 0) dry_gain wet_gain,
           mix cur_s_r (f_of_int 0) dry_gain wet_gain)
  else if l_looping v then
    d <- lift (CInt.sub n_loop_samples n_fade_samples) ;;
    '(wet_s_l, wet_s_r) <-
      (if (d <=? l_pos_r v) && negb (l_listening v) then
         p <- lift (CInt.sub (l_pos_r v) d) ;;
         a_l <- load Left (l_pos_r v) ;;
         b_l <- load Left p ;;
         a_r <- load Right (l_pos_r v) ;;
         b_r <- load Right p ;;
         ret (f_add a_l b_l, f_add a_r b_r)
       else
         a_l <- load Left (l_pos_r v) ;;
         a_r <- load Right (l_pos_r v) ;;
         ret (a_l, a_r)) ;;
    pos_r' <- lift (CInt.add (l_pos_r v) 1) ;;
    let out_l := mix cur_s_l wet_s_l dry_gain wet_gain in
    let out_r := mix cur_s_r wet_s_r dry_gain wet_gain in
    if n_loop_samples <=? pos_r' then
      if l_listening v then
        ret (mkLocals dry_gain wet_gain (l_pos_w v) 0 (l_listening v) false,
             out_l, out_r)
      else
        ret (mkLocals dry_gain wet_gain (l_pos_w v) n_fade_samples
                      (l_listening v) (l_looping v),
             out_l, out_r)
    else
      ret (mkLocals dry_gain wet_gain (l_pos_w v) pos_r' (l_listening v) (l_looping v),
           out_l, out_r)
  else
    ret (mkLocals dry_gain wet_gain (l_pos_w v) (l_pos_r v) (l_listening v) (l_looping v),
         mix cur_s_l (f_of_int 0) dry_gain wet_gain,
         mix cur_s_r (f_of_int 0) dry_gain wet_gain).

(** [input[i]]: the host's block holds the samples it announced. *)
Definition input_at (input : list F) (i : nat) : res F :=
  match nth_error input i with
  | Some x => Done x
  | None => Fault OutOfBounds
  end.

(** Line 204: [for (i = 0; i < n_samples; ++i)], with [k] iterations left
    to do from index [i]; it yields the locals after the last iteration and
    the output samples written at [i], [i+1], ... *)
Fixpoint sample_loop (k : nat) (i : nat) (n_fade_samples n_loop_samples : Z)
    (target_dry_gain target_wet_gain : F) (input_l input_r : list F)
    (v : locals F) : M F (locals F * list F * list F) :=
  match k with
  | O => ret (v, [], [])
  | S k' =>
      cur_s_l <- lift (input_at input_l i) ;;
      cur_s_r <- lift (input_at input_r i) ;;
      '(v', o_l, o_r) <- sample_step n_fade_samples n_loop_samples
                           target_dry_gain target_wet_gain cur_s_l cur_s_r v ;;
      '(v'', os_l, os_r) <- sample_loop k' (S i) n_fade_samples n_loop_samples
                              target_dry_gain target_wet_gain input_l input_r v' ;;
      ret (v'', o_l :: os_l, o_r :: os_r)
  end.

(** Lines 181-183: the trigger is latched once, before the loop. *)
Definition latch (ctl_trigger : F) (listening : bool) : bool :=
  if f_ltb (f_of_int 0) ctl_trigger && negb listening then true else listening.

(** [run]: the block of [n_samples] samples, with the control ports
    [ctl_blend] and [ctl_trigger] and the audio input ports. *)
Definition run (self : BollieRetain F) (ctl_blend ctl_trigger : F)
    (input_l input_r : list F) (n_samples : nat) : res (block F) :=
  let v := mkLocals (dry_gain self) (wet_gain self) (pos_w self) (pos_r self)
                    (latch ctl_trigger (listening self)) (looping self) in
  let '(target_dry_gain, target_wet_gain) := gain_targets ctl_blend in
  match sample_loop n_samples 0 (n_fade_samples self) (n_loop_samples self)
          target_dry_gain target_wet_gain input_l input_r v
          (mkTape (buffer_l self) (buffer_r self) [])
  with
  | Fault f => Fault f
  | Done (v', o_l, o_r, t) =>
      Done {| final := {| rate := rate self;
                          n_loop_samples := n_loop_samples self;
                          n_fade_samples := n_fade_samples self;
                          pos_w := l_pos_w v';
                          pos_r := l_pos_r v';
                          listening := l_listening v';
                          looping := l_looping v';
                          dry_gain := l_dry_gain v';
                          wet_gain := l_wet_gain v';
                          buffer_l := tape_l t;
                          buffer_r := tape_r t |};
              output_l := o_l;
              output_r := o_r;
              accesses := touched t |}
  end.

End Run.

(** * Vocabulary of the statements *)

(** The tape after an access at index [i] that changes no sample, the tape
    of a channel, and the tape after a store. *)
Definition logged {F} (t : tape F) (i : Z) : tape F :=
  mkTape (tape_l t) (tape_r t) (touched t ++ [i]).

Definition tape_of {F} (c : channel) (t : tape F) : Z -> F :=
  match c with Left => tape_l t | Right => tape_r t end.

Definition stored {F} (c : channel) (t : tape F) (i : Z) (v : F) : tape F :=
  match c with
  | Left => mkTape (upd (tape_l t) i v) (tape_r t) (touched t ++ [i])
  | Right => mkTape (tape_l t) (upd (tape_r t) i v) (touched t ++ [i])
  end.

(** The lengths an instance is expected to have, and the cursor bounds. *)
Definition lengths_ok (nf nl : Z) : Prop :=
  0 <= nf < nl /\ nl <= MAX_TAPE_LEN.

Definition cursors_ok {F} (nl : Z) (v : locals F) : Prop :=
  0 <= l_pos_w v <= nl /\ 0 <= l_pos_r v < nl.

Definition in_loop (nl : Z) (l : list Z) : Prop :=
  Forall (fun i => 0 <= i < nl) l.

(** What a sample stored at index [i] of the two tapes, when it did not
    fault. *)
Definition stored_at {F} (i : Z) (r : res (locals F * F * F * tape F))
  : res (F * F) :=
  res_bind r (fun '(_, _, _, t) => Done (tape_l t i, tape_r t i)).

(** The flags, the cursors, the outputs and the accesses of a block. *)
Definition outcome {F} (r : res (block F))
  : res (bool * bool * Z * Z * list F * list F * list Z) :=
  res_bind r (fun b =>
    Done (listening (final b), looping (final b),
          pos_w (final b), pos_r (final b),
          output_l b, output_r b, accesses b)).

(** The two gains [(dry_gain, wet_gain)] a block leaves. *)
Definition gains {F} (r : res (block F)) : res (F * F) :=
  res_bind r (fun b => Done (dry_gain (final b), wet_gain (final b))).

(** The two lengths of an instance. *)
Definition lengths {F} (r : res (BollieRetain F)) : res (Z * Z) :=
  res_bind r (fun self => Done (n_fade_samples self, n_loop_samples self)).

(** ** Concrete instances in binary32 *)

Module Float32.

Definition zero : spec_float := Binary32.of_int 0.
Definition one : spec_float := Binary32.of_int 1.
Definition fifty : spec_float := Binary32.of_int 50.
Definition hundred : spec_float := Binary32.of_int 100.
Definition half : spec_float := Binary32.div (Binary32.of_int 2) (Binary32.of_int 4).

(** A tape that holds its own index at every position. *)
Definition ramp : Z -> spec_float := Binary32.of_int.

Definition silence : Z -> spec_float := fun _ => zero.

Definition ramp_tape : tape spec_float := mkTape ramp ramp [].

(** Locals in the middle of a capture, at write position [pos_w]. *)
Definition capturing (pos_w : Z) : locals spec_float :=
  mkLocals zero zero pos_w 0 true false.

(** Locals during playback, at read position [pos_r]. *)
Definition playing (pos_r : Z) : locals spec_float :=
  mkLocals zero zero 0 pos_r false true.

(** An instance as [activate] leaves it, with the lengths of the sample rate
    4 Hz: a loop of 20 samples and a fade of 4. *)
Definition fresh : BollieRetain spec_float :=
  activate {| rate := Binary64.of_int 4;
              n_loop_samples := 20;
              n_fade_samples := 4;
              pos_w := 0; pos_r := 0;
              listening := false; looping := false;
              dry_gain := zero; wet_gain := zero;
              buffer_l := silence; buffer_r := silence |}.

(** An instance whose fade is as long as its loop (not one that
    [instantiate] builds), during playback at the last position of the
    loop. *)
Definition fade_is_loop : BollieRetain spec_float :=
  {| rate := Binary64.of_int 4;
     n_loop_samples := 4;
     n_fade_samples := 4;
     pos_w := 0; pos_r := 3;
     listening := false; looping := true;
     dry_gain := zero; wet_gain := zero;
     buffer_l := silence; buffer_r := silence |}.

(** The number 1 - 50 * 2^-24, a little below 1. *)
Definition stalled : spec_float := S754_finite false 16777166 (-24).

(** The number 1 - 34 * 2^-24. *)
Definition stalled_fused : spec_float := S754_finite false 16777182 (-24).

(** Lines 207-208 as a build that contracts evaluates them, with the
    product [gain * 0.99f] fused into the addition, or the product
    [target * 0.01f]. *)
Definition smooth_fused_gain (target gain : spec_float) : spec_float :=
  Binary32.fma gain (Binary32.literal 99 100)
               (Binary32.mul target (Binary32.literal 1 100)).

Definition smooth_fused_target (target gain : spec_float) : spec_float :=
  Binary32.fma target (Binary32.literal 1 100)
               (Binary32.mul gain (Binary32.literal 99 100)).

(** A block of 3000 samples of silence. *)
Definition long_block : nat := Z.to_nat 3000.
Definition long_silence : list spec_float := repeat zero long_block.

(** The sample rate 192001 Hz, one above the last rate whose loop fits
    the tapes. *)
Definition rate_192001 : spec_float := Binary64.of_int 192001.

End Float32.

(** ** Concrete instances in real arithmetic *)

Module Ideal.

(** An instance as [activate] leaves it, with a loop of 5 samples and a
    fade of 1. *)
Definition fresh : BollieRetain R :=
  activate {| rate := Binary64.of_int 1;
              n_loop_samples := 5;
              n_fade_samples := 1;
              pos_w := 0; pos_r := 0;
              listening := false; looping := false;
              dry_gain := 0%R; wet_gain := 0%R;
              buffer_l := fun _ => 0%R; buffer_r := fun _ => 0%R |}.

(** An instance without fade (sample rate 0.5 Hz), in the middle of a
    capture. *)
Definition zero_fade : BollieRetain R :=
  {| rate := Binary32.literal 5 10;
     n_loop_samples := 2;
     n_fade_samples := 0;
     pos_w := 0; pos_r := 0;
     listening := true; looping := false;
     dry_gain := 0%R; wet_gain := 0%R;
     buffer_l := fun _ => 0%R; buffer_r := fun _ => 0%R |}.

(** [powf] as the power function of the reals. *)
Definition powf : R -> R -> R := Rpower.

End Ideal.

(** * The port connections *)

(** [connect_port], on the six port pointers of the instance.  A pointer is
    a value of a type [P] of addresses. *)
Module Ports.

(** [enum PortIdx]. *)
Inductive PortIdx : Type :=
| BRT_BLEND | BRT_TRIGGER | BRT_INPUT_L | BRT_INPUT_R | BRT_OUTPUT_L | BRT_OUTPUT_R.

(** The cast [(PortIdx)port] of the [uint32_t] index: the values 0 to 5 are
    the six enumerators, and no [case] matches another value. *)
Definition of_index (port : N) : option PortIdx :=
  match port with
  | 0%N => Some BRT_BLEND
  | 1%N => Some BRT_TRIGGER
  | 2%N => Some BRT_INPUT_L
  | 3%N => Some BRT_INPUT_R
  | 4%N => Some BRT_OUTPUT_L
  | 5%N => Some BRT_OUTPUT_R
  | _ => None
  end.

(** The six port pointers of [struct BollieRetain]. *)
Record ports (P : Type) : Type := mkPorts {
  ctl_blend : P;
  ctl_trigger : P;
  input_l : P;
  input_r : P;
  output_l : P;
  output_r : P
}.

Arguments mkPorts {P}.

(** [connect_port]: the [switch] on the port index. *)
Definition connect_port {P} (self : ports P) (port : N) (data : P) : ports P :=
  match of_index port with
  | Some BRT_BLEND =>
      mkPorts data (ctl_trigger self) (input_l self) (input_r self)
              (output_l self) (output_r self)
  | Some BRT_TRIGGER =>
      mkPorts (ctl_blend self) data (input_l self) (input_r self)
              (output_l self) (output_r self)
  | Some BRT_INPUT_L =>
      mkPorts (ctl_blend self) (ctl_trigger self) data (input_r self)
              (output_l self) (output_r self)
  | Some BRT_INPUT_R =>
      mkPorts (ctl_blend self) (ctl_trigger self) (input_l self) data
              (output_l self) (output_r self)
  | Some BRT_OUTPUT_L =>
      mkPorts (ctl_blend self) (ctl_trigger self) (input_l self) (input_r self)
              data (output_r self)
  | Some BRT_OUTPUT_R =>
      mkPorts (ctl_blend self) (ctl_trigger self) (input_l self) (input_r self)
              (output_l self) data
  | None => self
  end.

(** The pointer stored for a port. *)
Definition pointer {P} (self : ports P) (p : PortIdx) : P :=
  match p with
  | BRT_BLEND => ctl_blend self
  | BRT_TRIGGER => ctl_trigger self
  | BRT_INPUT_L => input_l self
  | BRT_INPUT_R => input_r self
  | BRT_OUTPUT_L => output_l self
  | BRT_OUTPUT_R => output_r self
  end.

End Ports.

(** * Vocabulary of the statements about whole blocks *)

(** The tape [t] with the log [lg] put before its own. *)
Definition relog {F} (lg : list Z) (t : tape F) : tape F :=
  mkTape (tape_l t) (tape_r t) (lg ++ touched t).

Definition relog_res {F X} (lg : list Z) (r : res (X * tape F)) : res (X * tape F) :=
  match r with
  | Done (x, t) => Done (x, relog lg t)
  | Fault f => Fault f
  end.

(** A computation that treats the log as a log: it only appends to it. *)
Definition appends_log {F X} (c : M F X) : Prop :=
  forall lg t, c (relog lg t) = relog_res lg (c t).

(** The read cursor after one sample of playback without pending trigger
    (lines 246-256 of [run]). *)
Definition advance (nf nl pr : Z) : Z :=
  if nl <=? pr + 1 then nf else pr + 1.

Section BlockVocabulary.

Context {F : Type} {A : SampleArith F}.

(** What a capture that started at write position [w] with the input index
    [i] has stored for its [j]-th sample: the inputs times the capture
    coefficient. *)
Definition captured (nf nl : Z) (il ir : list F) (i : nat) (w : Z) (t : tape F)
    (j : nat) : Prop :=
  exists c x_l x_r,
    fade_coeff nf nl (w + Z.of_nat j) = Done c
    /\ nth_error il (i + j) = Some x_l
    /\ nth_error ir (i + j) = Some x_r
    /\ tape_l t (w + Z.of_nat j) = f_mul x_l c
    /\ tape_r t (w + Z.of_nat j) = f_mul x_r c.

(** The [j]-th output of a block that started with the gains [dg], [wg],
    when the wet sample is 0: the dry input, with gains smoothed [j + 1]
    times. *)
Definition dry_output (td tw dg wg : F) (il ir : list F) (i : nat)
    (o_l o_r : list F) (j : nat) : Prop :=
  exists x_l x_r,
    nth_error il (i + j) = Some x_l
    /\ nth_error ir (i + j) = Some x_r
    /\ nth_error o_l j
       = Some (mix x_l (f_of_int 0) (Nat.iter (S j) (smooth td) dg)
                   (Nat.iter (S j) (smooth tw) wg))
    /\ nth_error o_r j
       = Some (mix x_r (f_of_int 0) (Nat.iter (S j) (smooth td) dg)
                   (Nat.iter (S j) (smooth tw) wg)).

(** Lines 236-245: the wet sample the playback reads from the tape [buf] at
    the read position [pr]: the tape there, and in the last [nf] samples of
    the loop the tape [nl - nf] samples earlier added to it. *)
Definition wet_at (nf nl : Z) (buf : Z -> F) (pr : Z) : F :=
  if nl - nf <=? pr then f_add (buf pr) (buf (pr - (nl - nf))) else buf pr.

(** The [j]-th output of a block of playback that started at the read
    position [pr] with the gains [dg], [wg], over the tapes [bl], [br]: the
    input and the wet sample at the [j]-th position of the read cursor, with
    gains smoothed [j + 1] times. *)
Definition played (nf nl : Z) (td tw dg wg : F) (il ir : list F) (i : nat)
    (bl br : Z -> F) (pr : Z) (o_l o_r : list F) (j : nat) : Prop :=
  exists x_l x_r,
    nth_error il (i + j) = Some x_l
    /\ nth_error ir (i + j) = Some x_r
    /\ nth_error o_l j
       = Some (mix x_l (wet_at nf nl bl (Nat.iter j (advance nf nl) pr))
                   (Nat.iter (S j) (smooth td) dg)
                   (Nat.iter (S j) (smooth tw) wg))
    /\ nth_error o_r j
       = Some (mix x_r (wet_at nf nl br (Nat.iter j (advance nf nl) pr))
                   (Nat.iter (S j) (smooth td) dg)
                   (Nat.iter (S j) (smooth tw) wg)).

(** One call of [run] by the host: the values of the two control ports, the
    two input blocks and the block length. *)
Record host_block : Type := mkHostBlock {
  hb_blend : F;
  hb_trigger : F;
  hb_input_l : list F;
  hb_input_r : list F;
  hb_n_samples : nat
}.

(** The host calling [run] block after block on one instance; it yields the
    instance after the last block and what each block left. *)
Fixpoint session (powf : F -> F -> F) (self : BollieRetain F)
    (calls : list host_block) : res (BollieRetain F * list (block F)) :=
  match calls with
  | [] => Done (self, [])
  | hb :: rest =>
      res_bind (run powf self (hb_blend hb) (hb_trigger hb)
                  (hb_input_l hb) (hb_input_r hb) (hb_n_samples hb)) (fun b =>
      res_bind (session powf (final b) rest) (fun '(self', bs) =>
      Done (self', b :: bs)))
  end.

(** What every block keeps: the lengths, the cursor bounds and a phase. *)
Definition steady (nf nl : Z) (self : BollieRetain F) : Prop :=
  n_fade_samples self = nf /\ n_loop_samples self = nl
  /\ 0 <= pos_w self <= nl /\ 0 <= pos_r self < nl
  /\ listening self || looping self = true.

(** The block [hb] has the samples it announces. *)
Definition block_sized (hb : host_block) : Prop :=
  (hb_n_samples hb <= length (hb_input_l hb))%nat
  /\ (hb_n_samples hb <= length (hb_input_r hb))%nat.

End BlockVocabulary.

Arguments host_block F : clear implicits.

(** A mantissa under shift with nothing lost so far: round and sticky bit
    are clear. *)
Definition exact_record (z : Z) : shr_record :=
  {| shr_m := z; shr_r := false; shr_s := false |}.

(** ** More concrete instances in real arithmetic *)

Module Fixture.

(** An instance at the start of a capture, with the lengths of the sample
    rate 1 Hz: a loop of 5 samples and a fade of 1. *)
Definition capturing : BollieRetain R :=
  {| rate := Binary64.of_int 1;
     n_loop_samples := 5;
     n_fade_samples := 1;
     pos_w := 0; pos_r := 0;
     listening := true; looping := false;
     dry_gain := 0%R; wet_gain := 0%R;
     buffer_l := fun _ => 0%R; buffer_r := fun _ => 0%R |}.

(** The same lengths, during playback at read position 2. *)
Definition playing : BollieRetain R :=
  {| rate := Binary64.of_int 1;
     n_loop_samples := 5;
     n_fade_samples := 1;
     pos_w := 0; pos_r := 2;
     listening := false; looping := true;
     dry_gain := 0%R; wet_gain := 0%R;
     buffer_l := IZR; buffer_r := IZR |}.

(** Six samples of input. *)
Definition six : list R := [1%R; 2%R; 3%R; 4%R; 5%R; 6%R].

(** Two calls of the host: a block of two samples with the trigger up, and
    a block of four without. *)
Definition calls : list (host_block R) :=
  [mkHostBlock 25%R 1%R six six 2; mkHostBlock 75%R 0%R six six 4].

(** Six port pointers, as addresses. *)
Definition unconnected : Ports.ports Z := Ports.mkPorts 0 0 0 0 0 0.

End Fixture.

(** * Properties *)

(** ** Evaluation rules of the primitives *)

Ltac int_bounds :=
  unfold CInt.INT_MIN, CInt.INT_MAX, MAX_TAPE_LEN in *; lia.

Lemma in_range_true (z : Z) :
  CInt.INT_MIN <= z <= CInt.INT_MAX -> CInt.in_range z = true.
Proof.
  intros [Hlo Hhi]. unfold CInt.in_range.
  apply andb_true_intro; split; apply Z.leb_le; assumption.
Qed.

Lemma chk_ok (z : Z) :
  CInt.INT_MIN <= z <= CInt.INT_MAX -> CInt.chk z = Done z.
Proof. intros H. unfold CInt.chk. now rewrite in_range_true. Qed.

Lemma add_ok (a b : Z) :
  CInt.INT_MIN <= a + b <= CInt.INT_MAX -> CInt.add a b = Done (a + b).
Proof. apply chk_ok. Qed.

Lemma sub_ok (a b : Z) :
  CInt.INT_MIN <= a - b <= CInt.INT_MAX -> CInt.sub a b = Done (a - b).
Proof. apply chk_ok. Qed.

Lemma mul_ok (a b : Z) :
  CInt.INT_MIN <= a * b <= CInt.INT_MAX -> CInt.mul a b = Done (a * b).
Proof. apply chk_ok. Qed.

(** [1/n] is 1 for [n = 1] and 0 for every larger [n]. *)
Lemma div_one_pos (n : Z) :
  0 < n -> CInt.div 1 n = Done (if n =? 1 then 1 else 0).
Proof.
  intros Hn. unfold CInt.div.
  destruct (Z.eqb_spec n 0) as [->|_]; [lia|].
  destruct (Z.eqb_spec n 1) as [->|Hn1].
  - reflexivity.
  - rewrite Z.quot_small by lia. reflexivity.
Qed.

Lemma chk_not_div (z : Z) : CInt.chk z <> Fault DivByZero.
Proof. unfold CInt.chk. destruct (CInt.in_range z); discriminate. Qed.

Lemma load_ok {F} (c : channel) (i : Z) (t : tape F) :
  0 <= i < MAX_TAPE_LEN -> load c i t = Done (tape_of c t i, logged t i).
Proof.
  intros [Hlo Hhi]. unfold load, in_tape.
  destruct (Z.leb_spec 0 i); [|lia]. destruct (Z.ltb_spec i MAX_TAPE_LEN); [|lia].
  destruct c; reflexivity.
Qed.

Lemma store_ok {F} (c : channel) (i : Z) (v : F) (t : tape F) :
  0 <= i < MAX_TAPE_LEN -> store c i v t = Done (tt, stored c t i v).
Proof.
  intros [Hlo Hhi]. unfold store, in_tape.
  destruct (Z.leb_spec 0 i); [|lia]. destruct (Z.ltb_spec i MAX_TAPE_LEN); [|lia].
  destruct c; reflexivity.
Qed.

Lemma upd_same {F} (b : Z -> F) (i : Z) (v : F) : upd b i v i = v.
Proof. unfold upd. now rewrite Z.eqb_refl. Qed.

Lemma upd_other {F} (b : Z -> F) (i j : Z) (v : F) : j <> i -> upd b i v j = b j.
Proof. intros H. unfold upd. destruct (Z.eqb_spec j i); [contradiction|reflexivity]. Qed.

(** ** The capture coefficient *)

Section FadeCoeff.

Context {F : Type} {A : SampleArith F}.

(** In the fade-in region the coefficient is the [int] quotient
    [1/n_fade_samples] times the write position. *)
Lemma fade_coeff_head (nf nl pw : Z) :
  0 <= pw < nf -> nf <= CInt.INT_MAX ->
  fade_coeff nf nl pw = Done (f_of_int ((if nf =? 1 then 1 else 0) * pw)).
Proof.
  intros Hpw Hnf. unfold fade_coeff.
  destruct (Z.ltb_spec pw nf); [|lia].
  rewrite div_one_pos by lia. cbn [res_bind].
  rewrite mul_ok by (destruct (nf =? 1); int_bounds).
  reflexivity.
Qed.

(** In the fade-out region it is the same quotient times the distance to
    the last position of the loop. *)
Lemma fade_coeff_tail (nf nl pw : Z) :
  0 < nf -> nf <= pw -> nl - nf <= pw < nl -> nl <= CInt.INT_MAX ->
  fade_coeff nf nl pw = Done (f_of_int ((if nf =? 1 then 1 else 0) * (nl - 1 - pw))).
Proof.
  intros Hnf Hlo Hpw Hnl. unfold fade_coeff.
  destruct (Z.ltb_spec pw nf); [lia|].
  rewrite sub_ok by int_bounds. cbn [res_bind].
  destruct (Z.leb_spec (nl - nf) pw); [|lia].
  rewrite div_one_pos by lia. cbn [res_bind].
  rewrite sub_ok by int_bounds. cbn [res_bind].
  rewrite sub_ok by int_bounds. cbn [res_bind].
  rewrite mul_ok by (destruct (nf =? 1); int_bounds).
  reflexivity.
Qed.

(** Between the two regions it is 1. *)
Lemma fade_coeff_flat (nf nl pw : Z) :
  0 <= nf <= pw -> pw < nl - nf -> nl <= CInt.INT_MAX ->
  fade_coeff nf nl pw = Done (f_of_int 1).
Proof.
  intros Hlo Hpw Hnl. unfold fade_coeff.
  destruct (Z.ltb_spec pw nf); [lia|].
  rewrite sub_ok by int_bounds. cbn [res_bind].
  destruct (Z.leb_spec (nl - nf) pw); [lia|reflexivity].
Qed.

(** With a fade longer than one sample the quotient is 0: every sample of
    both fade regions is stored multiplied by zero. *)
Lemma fade_coeff_truncated (nf nl pw : Z) :
  1 < nf -> 2 * nf <= nl -> nl <= CInt.INT_MAX ->
  0 <= pw < nf \/ nl - nf <= pw < nl ->
  fade_coeff nf nl pw = Done (f_of_int 0).
Proof.
  intros Hnf H2 Hnl [Hpw|Hpw].
  - rewrite fade_coeff_head by lia.
    destruct (Z.eqb_spec nf 1); [lia|reflexivity].
  - rewrite fade_coeff_tail by lia.
    destruct (Z.eqb_spec nf 1); [lia|reflexivity].
Qed.

(** Whenever the coefficient is computed at a non-negative position no
    division by zero happens. *)
Lemma fade_coeff_no_div_zero (nl pw : Z) :
  0 <= pw -> pw < nl -> fade_coeff 0 nl pw <> Fault DivByZero.
Proof.
  intros Hpw Hnl. unfold fade_coeff.
  destruct (Z.ltb_spec pw 0); [lia|].
  unfold CInt.sub. rewrite Z.sub_0_r. unfold CInt.chk.
  destruct (CInt.in_range nl); cbn [res_bind]; [|discriminate].
  destruct (Z.leb_spec nl pw); [lia|discriminate].
Qed.

(** C3 fails on the code.  At every offset [o] of the crossfade both
    capture coefficients are 0, the fade-out one at index
    [n_loop_samples - n_fade_samples + o] and the fade-in one at index [o]:
    the [int] quotient [1/n_fade_samples] is 0 for a fade longer than one
    sample, and in a fade of one sample both ramp positions are 0.  The two
    coefficients do not add up to 1, and what the crossfade of the playback
    superposes was stored as silence. *)
Theorem crossfade_coefficients_vanish (nf nl o : Z) :
  0 <= o < nf -> 2 * nf <= nl -> nl <= CInt.INT_MAX ->
  fade_coeff nf nl (nl - nf + o) = Done (f_of_int 0)
  /\ fade_coeff nf nl o = Done (f_of_int 0).
Proof.
  intros Ho H2 Hnl. split.
  - rewrite fade_coeff_tail by lia.
    destruct (Z.eqb_spec nf 1) as [Hnf|Hnf]; do 2 f_equal; lia.
  - rewrite fade_coeff_head by lia.
    destruct (Z.eqb_spec nf 1) as [Hnf|Hnf]; do 2 f_equal; lia.
Qed.

End FadeCoeff.

(** ** One sample *)

Section SampleStep.

Context {F : Type} {A : SampleArith F}.

Lemma in_loop_snoc (nl : Z) (l : list Z) (i : Z) :
  in_loop nl l -> 0 <= i < nl -> in_loop nl (l ++ [i]).
Proof.
  intros Hl Hi. apply Forall_app. split; [assumption|].
  constructor; [assumption|constructor].
Qed.

Lemma fade_coeff_defined (nf nl pw : Z) :
  0 <= nf <= CInt.INT_MAX -> nl <= CInt.INT_MAX -> 0 <= pw < nl ->
  exists c, fade_coeff nf nl pw = Done c.
Proof.
  intros Hnf Hnl Hpw.
  destruct (Z.lt_ge_cases pw nf) as [Hlt|Hge].
  - eexists. apply fade_coeff_head; lia.
  - destruct (Z.lt_ge_cases pw (nl - nf)) as [Hflat|Htail].
    + eexists. apply fade_coeff_flat; lia.
    + eexists. apply fade_coeff_tail; lia.
Qed.

Variables (nf nl : Z) (td tw : F).

(** Under the bounds every sample is processed without fault, touches
    only indices of the loop, keeps the bounds and smooths both gains. *)
Lemma sample_step_safe (cur_l cur_r : F) (v : locals F) (t : tape F) :
  lengths_ok nf nl -> cursors_ok nl v -> in_loop nl (touched t) ->
  exists v' o_l o_r t',
    sample_step nf nl td tw cur_l cur_r v t = Done (v', o_l, o_r, t')
    /\ cursors_ok nl v'
    /\ in_loop nl (touched t')
    /\ l_dry_gain v' = smooth td (l_dry_gain v)
    /\ l_wet_gain v' = smooth tw (l_wet_gain v).
Proof.
  intros [Hnf Hnl] [Hw Hr] Hlog.
  destruct v as [dg wg pw pr lis loo]; cbn [l_pos_w l_pos_r] in Hw, Hr.
  unfold sample_step, cursors_ok;
    cbn [l_pos_w l_pos_r l_listening l_looping l_dry_gain l_wet_gain].
  destruct lis, loo; cbn [andb negb].
  - (* listening and looping: playback without crossfade *)
    unfold bind, lift.
    rewrite sub_ok by int_bounds.
    rewrite Bool.andb_false_r.
    unfold bind. rewrite !load_ok by int_bounds.
    unfold ret. rewrite add_ok by int_bounds.
    destruct (Z.leb_spec nl (pr + 1)).
    + do 4 eexists. split; [reflexivity|].
      cbn. repeat split; try lia.
      do 2 (apply in_loop_snoc; [|lia]). assumption.
    + do 4 eexists. split; [reflexivity|].
      cbn. repeat split; try lia.
      do 2 (apply in_loop_snoc; [|lia]). assumption.
  - (* capture *)
    destruct (Z.ltb_spec pw nl).
    + destruct (@fade_coeff_defined nf nl pw) as [c Hc]; try int_bounds.
      unfold bind, lift. rewrite Hc.
      rewrite !store_ok by int_bounds.
      rewrite add_ok by int_bounds.
      do 4 eexists. split; [reflexivity|].
      cbn. repeat split; try lia.
      do 2 (apply in_loop_snoc; [|lia]). assumption.
    + do 4 eexists. split; [reflexivity|].
      cbn. repeat split; try lia. assumption.
  - (* playback *)
    unfold bind, lift.
    rewrite sub_ok by int_bounds.
    rewrite Bool.andb_true_r.
    destruct (Z.leb_spec (nl - nf) pr).
    + unfold bind, lift. rewrite sub_ok by int_bounds.
      rewrite !load_ok by int_bounds.
      unfold ret. rewrite add_ok by int_bounds.
      destruct (Z.leb_spec nl (pr + 1)).
      * do 4 eexists. split; [reflexivity|].
        cbn. repeat split; try lia.
        do 4 (apply in_loop_snoc; [|lia]). assumption.
      * do 4 eexists. split; [reflexivity|].
        cbn. repeat split; try lia.
        do 4 (apply in_loop_snoc; [|lia]). assumption.
    + unfold bind. rewrite !load_ok by int_bounds.
      unfold ret. rewrite add_ok by int_bounds.
      destruct (Z.leb_spec nl (pr + 1)).
      * do 4 eexists. split; [reflexivity|].
        cbn. repeat split; try lia.
        do 2 (apply in_loop_snoc; [|lia]). assumption.
      * do 4 eexists. split; [reflexivity|].
        cbn. repeat split; try lia.
        do 2 (apply in_loop_snoc; [|lia]). assumption.
  - (* neither flag: nothing but the smoothing *)
    do 4 eexists. split; [reflexivity|].
    cbn. repeat split; try lia. assumption.
Qed.

(** With a zero fade length and a non-negative write cursor no sample
    divides by zero, and the write cursor stays non-negative. *)
Lemma sample_step_no_div_zero (cur_l cur_r : F) (v : locals F) (t : tape F) :
  nf = 0 -> 0 <= l_pos_w v ->
  match sample_step nf nl td tw cur_l cur_r v t with
  | Fault f => f <> DivByZero
  | Done (v', _, _, _) => 0 <= l_pos_w v'
  end.
Proof.
  intros Hnf Hw. subst nf.
  destruct v as [dg wg pw pr lis loo]; cbn [l_pos_w] in Hw.
  unfold sample_step;
    cbn [l_pos_w l_pos_r l_listening l_looping l_dry_gain l_wet_gain].
  destruct lis, loo; cbn [andb negb].
  2: { (* capture *)
    destruct (Z.ltb_spec pw nl) as [Hlt|Hge]; [|cbn; lia].
    pose proof (@fade_coeff_no_div_zero F A nl pw Hw Hlt) as Hc.
    unfold bind, lift.
    destruct (fade_coeff 0 nl pw) as [c|f]; [|congruence].
    unfold store, CInt.add, CInt.chk, ret.
    destruct (in_tape pw); [|discriminate].
    destruct (CInt.in_range (pw + 1)); [cbn; lia|discriminate]. }
  all: unfold bind, lift, load, CInt.add, CInt.sub, CInt.chk, ret;
    repeat match goal with
           | |- context [if ?b then _ else _] => destruct b
           end;
    cbn; try discriminate; lia.
Qed.

(** ** Playback: the wet sample and the read cursor *)

(** What one sample of playback without a pending trigger does. *)
Lemma playback_step (cur_l cur_r : F) (v : locals F) (t : tape F) :
  0 <= nf <= nl -> nl <= MAX_TAPE_LEN -> 0 <= l_pos_r v < nl ->
  l_looping v = true -> l_listening v = false ->
  let pr := l_pos_r v in
  let fold := nl - nf <=? pr in
  let wet c :=
    if fold then f_add (tape_of c t pr) (tape_of c t (pr - (nl - nf)))
    else tape_of c t pr in
  let dry_gain := smooth td (l_dry_gain v) in
  let wet_gain := smooth tw (l_wet_gain v) in
  sample_step nf nl td tw cur_l cur_r v t
  = Done (mkLocals dry_gain wet_gain (l_pos_w v)
                   (if nl <=? pr + 1 then nf else pr + 1) false true,
          mix cur_l (wet Left) dry_gain wet_gain,
          mix cur_r (wet Right) dry_gain wet_gain,
          if fold
          then logged (logged (logged (logged t pr) (pr - (nl - nf))) pr)
                      (pr - (nl - nf))
          else logged (logged t pr) pr).
Proof.
  intros Hnf Hnl Hr Hloo Hlis.
  destruct v as [dg wg pw pr lis loo];
    cbn [l_pos_w l_pos_r l_listening l_looping l_dry_gain l_wet_gain] in *.
  subst lis loo. cbv zeta.
  unfold sample_step;
    cbn [l_pos_w l_pos_r l_listening l_looping l_dry_gain l_wet_gain andb negb].
  unfold bind, lift.
  rewrite sub_ok by int_bounds.
  rewrite Bool.andb_true_r.
  destruct (Z.leb_spec (nl - nf) pr).
  - unfold bind, lift. rewrite sub_ok by int_bounds.
    rewrite !load_ok by int_bounds.
    unfold ret. rewrite add_ok by int_bounds.
    destruct (Z.leb_spec nl (pr + 1)); reflexivity.
  - unfold bind. rewrite !load_ok by int_bounds.
    unfold ret. rewrite add_ok by int_bounds.
    destruct (Z.leb_spec nl (pr + 1)); reflexivity.
Qed.

(** C4. While looping and not listening, the wet sample mixed into each
    output channel is [buffer[pos_r] + buffer[pos_r - (n_loop_samples -
    n_fade_samples)]] when [pos_r >= n_loop_samples - n_fade_samples], and
    [buffer[pos_r]] alone otherwise; the tapes are left as they were. *)
Theorem playback_wet_sample (cur_l cur_r : F) (v : locals F) (t : tape F) :
  0 <= nf <= nl -> nl <= MAX_TAPE_LEN -> 0 <= l_pos_r v < nl ->
  l_looping v = true -> l_listening v = false ->
  let wet c :=
    if nl - nf <=? l_pos_r v
    then f_add (tape_of c t (l_pos_r v)) (tape_of c t (l_pos_r v - (nl - nf)))
    else tape_of c t (l_pos_r v) in
  exists v' t',
    sample_step nf nl td tw cur_l cur_r v t
    = Done (v',
            mix cur_l (wet Left) (smooth td (l_dry_gain v)) (smooth tw (l_wet_gain v)),
            mix cur_r (wet Right) (smooth td (l_dry_gain v)) (smooth tw (l_wet_gain v)),
            t')
    /\ tape_l t' = tape_l t /\ tape_r t' = tape_r t.
Proof.
  intros Hnf Hnl Hr Hloo Hlis wet; subst wet.
  rewrite playback_step by assumption.
  do 2 eexists. split; [reflexivity|].
  destruct (nl - nf <=? l_pos_r v); split; reflexivity.
Qed.

(** C5. During playback without a pending trigger the read cursor that is
    incremented to [n_loop_samples] is set to [n_fade_samples], not to 0,
    and the flags stay as they are; a cursor beyond the fade-in region
    therefore never comes back into it. *)
Theorem read_cursor_wraps_to_fade (cur_l cur_r : F) (v : locals F) (t : tape F) :
  0 <= nf <= nl -> nl <= MAX_TAPE_LEN -> 0 <= l_pos_r v < nl ->
  l_looping v = true -> l_listening v = false ->
  exists v' o_l o_r t',
    sample_step nf nl td tw cur_l cur_r v t = Done (v', o_l, o_r, t')
    /\ l_looping v' = true /\ l_listening v' = false
    /\ (l_pos_r v + 1 = nl -> l_pos_r v' = nf)
    /\ (l_pos_r v + 1 < nl -> l_pos_r v' = l_pos_r v + 1)
    /\ (nf <= l_pos_r v -> nf <= l_pos_r v').
Proof.
  intros Hnf Hnl Hr Hloo Hlis.
  rewrite playback_step by assumption.
  do 4 eexists. split; [reflexivity|].
  cbn [l_pos_r l_listening l_looping].
  destruct (Z.leb_spec nl (l_pos_r v + 1)); repeat split; lia.
Qed.

End SampleStep.

(** ** One block *)

Section Block.

Context {F : Type} {A : SampleArith F}.
Variable powf : F -> F -> F.

Lemma input_at_ok (input : list F) (i : nat) :
  (i < length input)%nat -> exists x, input_at input i = Done x.
Proof.
  intros Hi. unfold input_at.
  destruct (nth_error input i) as [x|] eqn:E.
  - now exists x.
  - apply nth_error_None in E. lia.
Qed.

Lemma input_at_fault (input : list F) (i : nat) (f : fault) :
  input_at input i = Fault f -> f = OutOfBounds.
Proof.
  unfold input_at. destruct (nth_error input i); [discriminate|].
  now intros [= <-].
Qed.

(** The loop invariant: a block whose inputs hold the announced samples
    runs to its end; the cursors stay within their bounds, every index
    accessed is an index of the loop, and each gain has been smoothed once
    per sample. *)
Lemma sample_loop_safe (nf nl : Z) (td tw : F) (input_l input_r : list F) :
  lengths_ok nf nl ->
  forall (k i : nat) (v : locals F) (t : tape F),
    (i + k <= length input_l)%nat -> (i + k <= length input_r)%nat ->
    cursors_ok nl v -> in_loop nl (touched t) ->
    exists v' o_l o_r t',
      sample_loop k i nf nl td tw input_l input_r v t = Done (v', o_l, o_r, t')
      /\ cursors_ok nl v'
      /\ in_loop nl (touched t')
      /\ l_dry_gain v' = Nat.iter k (smooth td) (l_dry_gain v)
      /\ l_wet_gain v' = Nat.iter k (smooth tw) (l_wet_gain v)
      /\ length o_l = k /\ length o_r = k.
Proof.
  intros Hlen. induction k as [|k IH]; intros i v t Hil Hir Hv Ht.
  - exists v, [], [], t. cbn. repeat split; try assumption; apply Hv.
  - destruct (@input_at_ok input_l i) as [x_l Hx_l]; [lia|].
    destruct (@input_at_ok input_r i) as [x_r Hx_r]; [lia|].
    destruct (@sample_step_safe F A nf nl td tw x_l x_r v t Hlen Hv Ht)
      as (v1 & o_l & o_r & t1 & Hstep & Hv1 & Ht1 & Hdry & Hwet).
    destruct (IH (S i) v1 t1) as (v2 & os_l & os_r & t2 & Hloop & Hv2 & Ht2 & Hd2 & Hw2 & Hl & Hr);
      try assumption; try lia.
    exists v2, (o_l :: os_l), (o_r :: os_r), t2.
    split.
    { cbn [sample_loop]. unfold bind at 1, lift at 1. rewrite Hx_l.
      unfold bind at 1, lift at 1. rewrite Hx_r.
      unfold bind at 1. rewrite Hstep.
      unfold bind at 1. rewrite Hloop. reflexivity. }
    repeat split; try assumption; try apply Hv2.
    + rewrite Hd2, Hdry. symmetry. apply Nat.iter_succ_r.
    + rewrite Hw2, Hwet. symmetry. apply Nat.iter_succ_r.
    + cbn. now rewrite Hl.
    + cbn. now rewrite Hr.
Qed.

(** With a zero fade length no sample of a block divides by zero. *)
Lemma sample_loop_no_div_zero (nl : Z) (td tw : F) (input_l input_r : list F) :
  forall (k i : nat) (v : locals F) (t : tape F),
    0 <= l_pos_w v ->
    match sample_loop k i 0 nl td tw input_l input_r v t with
    | Fault f => f <> DivByZero
    | Done (v', _, _, _) => 0 <= l_pos_w v'
    end.
Proof.
  induction k as [|k IH]; intros i v t Hv.
  - cbn. assumption.
  - cbn [sample_loop]. unfold bind at 1, lift at 1.
    destruct (input_at input_l i) as [x_l|f] eqn:El;
      [|apply input_at_fault in El; now subst f].
    unfold bind at 1, lift at 1.
    destruct (input_at input_r i) as [x_r|f] eqn:Er;
      [|apply input_at_fault in Er; now subst f].
    unfold bind at 1.
    pose proof (@sample_step_no_div_zero F A 0 nl td tw x_l x_r v t eq_refl Hv) as Hs.
    destruct (sample_step 0 nl td tw x_l x_r v t) as [[[[v1 o_l] o_r] t1]|f];
      [|assumption].
    unfold bind at 1.
    specialize (IH (S i) v1 t1 Hs).
    destruct (sample_loop k (S i) 0 nl td tw input_l input_r v1 t1)
      as [[[[v2 os_l] os_r] t2]|f]; [|assumption].
    cbn. assumption.
Qed.

(** C2, as the code has it.  A block of length 0 writes no output sample,
    accesses no tape index and leaves every field of the instance as it
    was, except [listening], which holds the latched trigger: it becomes
    true when the trigger control is positive. *)
Theorem run_zero_block (self : BollieRetain F) (ctl_blend ctl_trigger : F)
    (input_l input_r : list F) :
  run powf self ctl_blend ctl_trigger input_l input_r 0
  = Done {| final := {| rate := rate self;
                        n_loop_samples := n_loop_samples self;
                        n_fade_samples := n_fade_samples self;
                        pos_w := pos_w self;
                        pos_r := pos_r self;
                        listening := f_ltb (f_of_int 0) ctl_trigger || listening self;
                        looping := looping self;
                        dry_gain := dry_gain self;
                        wet_gain := wet_gain self;
                        buffer_l := buffer_l self;
                        buffer_r := buffer_r self |};
            output_l := [];
            output_r := [];
            accesses := [] |}.
Proof.
  unfold run. destruct (gain_targets powf ctl_blend) as [t_dry t_wet].
  cbn. unfold latch.
  destruct (f_ltb (f_of_int 0) ctl_trigger), (listening self); reflexivity.
Qed.

(** A block of length 0 is the identity when the trigger control is not
    positive, or when the instance is listening already. *)
Lemma run_zero_block_id (self : BollieRetain F) (ctl_blend ctl_trigger : F)
    (input_l input_r : list F) :
  f_ltb (f_of_int 0) ctl_trigger = false \/ listening self = true ->
  run powf self ctl_blend ctl_trigger input_l input_r 0
  = Done {| final := self; output_l := []; output_r := []; accesses := [] |}.
Proof.
  intros H. unfold run. destruct (gain_targets powf ctl_blend) as [t_dry t_wet].
  cbn. unfold latch. destruct self; cbn in *.
  destruct H as [-> | ->]; [reflexivity|].
  now rewrite Bool.andb_false_r.
Qed.

(** What a block does to an instance whose lengths and cursors are
    within their bounds. *)
Lemma run_safe (self : BollieRetain F) (ctl_blend ctl_trigger : F)
    (input_l input_r : list F) (n_samples : nat) :
  0 <= n_fade_samples self < n_loop_samples self ->
  n_loop_samples self <= MAX_TAPE_LEN ->
  0 <= pos_w self <= n_loop_samples self ->
  0 <= pos_r self < n_loop_samples self ->
  (n_samples <= length input_l)%nat -> (n_samples <= length input_r)%nat ->
  exists b,
    run powf self ctl_blend ctl_trigger input_l input_r n_samples = Done b
    /\ n_fade_samples (final b) = n_fade_samples self
    /\ n_loop_samples (final b) = n_loop_samples self
    /\ 0 <= pos_w (final b) <= n_loop_samples self
    /\ 0 <= pos_r (final b) < n_loop_samples self
    /\ Forall (fun i => 0 <= i < n_loop_samples self) (accesses b)
    /\ dry_gain (final b)
       = Nat.iter n_samples (smooth (fst (gain_targets powf ctl_blend))) (dry_gain self)
    /\ wet_gain (final b)
       = Nat.iter n_samples (smooth (snd (gain_targets powf ctl_blend))) (wet_gain self)
    /\ length (output_l b) = n_samples /\ length (output_r b) = n_samples.
Proof.
  intros Hnf Hnl Hw Hr Hil Hir. unfold run.
  destruct (gain_targets powf ctl_blend) as [t_dry t_wet]. cbn [fst snd].
  set (v := mkLocals _ _ _ _ _ _).
  destruct (@sample_loop_safe (n_fade_samples self) (n_loop_samples self)
              t_dry t_wet input_l input_r (conj Hnf Hnl) n_samples 0%nat v
              (mkTape (buffer_l self) (buffer_r self) []))
    as (v' & o_l & o_r & t' & Hloop & [Hw' Hr'] & Ht' & Hdry & Hwet & Hl & Hrr);
    try assumption.
  - split; assumption.
  - constructor.
  - rewrite Hloop. eexists. split; [reflexivity|].
    cbn. repeat split; try assumption; lia.
Qed.

(** C10, for lengths with [0 <= n_fade_samples < n_loop_samples].  Every
    block run on an instance with [n_loop_samples <= MAX_TAPE_LEN], [pos_w]
    in [[0, n_loop_samples]] and [pos_r] in [[0, n_loop_samples)] returns,
    reads and writes only tape indices in [[0, n_loop_samples)], and leaves
    [pos_w] in [[0, n_loop_samples]] and [pos_r] in [[0, n_loop_samples)]. *)
Theorem run_keeps_cursor_bounds (self : BollieRetain F) (ctl_blend ctl_trigger : F)
    (input_l input_r : list F) (n_samples : nat) :
  0 <= n_fade_samples self < n_loop_samples self ->
  n_loop_samples self <= MAX_TAPE_LEN ->
  0 <= pos_w self <= n_loop_samples self ->
  0 <= pos_r self < n_loop_samples self ->
  (n_samples <= length input_l)%nat -> (n_samples <= length input_r)%nat ->
  exists b,
    run powf self ctl_blend ctl_trigger input_l input_r n_samples = Done b
    /\ Forall (fun i => 0 <= i < n_loop_samples self) (accesses b)
    /\ 0 <= pos_w (final b) <= n_loop_samples (final b)
    /\ 0 <= pos_r (final b) < n_loop_samples (final b)
    /\ n_fade_samples (final b) = n_fade_samples self
    /\ n_loop_samples (final b) = n_loop_samples self.
Proof.
  intros Hnf Hnl Hw Hr Hil Hir.
  destruct (@run_safe self ctl_blend ctl_trigger input_l input_r n_samples)
    as (b & Hrun & Hf & Hl & Hw' & Hr' & Hacc & _); try assumption.
  exists b. rewrite Hl. repeat split; try assumption; lia.
Qed.

(** C8. With [n_fade_samples = 0] and a write cursor that is not negative
    (it starts at 0 and is only ever incremented or reset to 0), no block
    divides by zero: the tests on [pos_w] keep both divisions from being
    evaluated, and the capture coefficient is 1 at every position. *)
Theorem zero_fade_never_divides (self : BollieRetain F) (ctl_blend ctl_trigger : F)
    (input_l input_r : list F) (n_samples : nat) :
  n_fade_samples self = 0 -> 0 <= pos_w self ->
  run powf self ctl_blend ctl_trigger input_l input_r n_samples <> Fault DivByZero
  /\ (forall pw, 0 <= pw < n_loop_samples self ->
                 n_loop_samples self <= CInt.INT_MAX ->
                 fade_coeff (n_fade_samples self) (n_loop_samples self) pw
                 = Done (f_of_int 1)).
Proof.
  intros Hnf Hw. split.
  - unfold run. destruct (gain_targets powf ctl_blend) as [t_dry t_wet].
    rewrite Hnf.
    match goal with
    | |- context [sample_loop ?k ?i 0 ?nl ?td ?tw ?il ?ir ?v ?t] =>
        pose proof (@sample_loop_no_div_zero nl td tw il ir k i v t Hw) as H;
        destruct (sample_loop k i 0 nl td tw il ir v t) as [[[[v' o_l] o_r] t']|f]
    end.
    + discriminate.
    + congruence.
  - intros pw Hpw Hnl. rewrite Hnf. apply fade_coeff_flat; lia.
Qed.

(** The write cursor of a reset instance is not negative, and no block
    makes it negative. *)
Lemma run_pos_w_nonneg (self : BollieRetain F) (ctl_blend ctl_trigger : F)
    (input_l input_r : list F) (n_samples : nat) (b : block F) :
  n_fade_samples self = 0 -> 0 <= pos_w self ->
  run powf self ctl_blend ctl_trigger input_l input_r n_samples = Done b ->
  0 <= pos_w (final b).
Proof.
  intros Hnf Hw. unfold run.
  destruct (gain_targets powf ctl_blend) as [t_dry t_wet]. rewrite Hnf.
  match goal with
  | |- context [sample_loop ?k ?i 0 ?nl ?td ?tw ?il ?ir ?v ?t] =>
      pose proof (@sample_loop_no_div_zero nl td tw il ir k i v t Hw) as H;
      destruct (sample_loop k i 0 nl td tw il ir v t) as [[[[v' o_l] o_r] t']|f]
  end.
  - intros [= <-]. exact H.
  - discriminate.
Qed.

End Block.

(** * The code in binary32 *)

Section InBinary32.

Import Float32.

(** The bit patterns of the literals of [run]:
    0.01f = 0x3C23D70A, 0.99f = 0x3F7D70A4, 0.04f = 0x3D23D70A. *)
Example literals :
  (f_0_01, f_0_99, f_0_04)
  = (S754_finite false 10737418 (-30),
     S754_finite false 16609444 (-24),
     S754_finite false 10737418 (-28)).
Proof. vm_compute. reflexivity. Qed.

Example small_integers :
  (zero, one, fifty, hundred, half)
  = (S754_zero false,
     S754_finite false 8388608 (-23),
     S754_finite false 13107200 (-18),
     S754_finite false 13107200 (-17),
     S754_finite false 8388608 (-24)).
Proof. vm_compute. reflexivity. Qed.

Lemma zero_eq : zero = S754_zero false.
Proof. reflexivity. Qed.

Lemma fifty_eq : fifty = S754_finite false 13107200 (-18).
Proof. vm_compute. reflexivity. Qed.

Lemma hundred_eq : hundred = S754_finite false 13107200 (-17).
Proof. vm_compute. reflexivity. Qed.

Lemma compare_cont_Eq_spec (a b : positive) :
  CompareSpec (a = b) (a < b)%positive (b < a)%positive (Pos.compare_cont Eq a b).
Proof. exact (Pos.compare_spec a b). Qed.

Lemma compare_cont_Eq_antisym (a b : positive) :
  Pos.compare_cont Eq b a = CompOpp (Pos.compare_cont Eq a b).
Proof. exact (Pos.compare_antisym a b). Qed.

(** Case analysis on the comparisons of exponent and mantissa that
    [SFcompare] makes against 50 and 100. *)
Ltac cmp_cases :=
  repeat match goal with
         | |- context [Z.compare (Zneg ?c) ?e] =>
             rewrite (Z.compare_antisym e (Zneg c))
         | |- context [Pos.compare_cont Eq 13107200 ?m] =>
             rewrite (compare_cont_Eq_antisym m 13107200)
         end;
  repeat match goal with
         | |- context [Z.compare ?a ?b] =>
             destruct (Z.compare_spec a b); try lia;
             cbv beta iota delta [CompOpp andb]
         | |- context [Pos.compare_cont Eq ?a ?b] =>
             destruct (compare_cont_Eq_spec a b);
             cbv beta iota delta [CompOpp andb]
         end.

Section GainTargets.

Variable powf : spec_float -> spec_float -> spec_float.

(** The tests of [gain_targets] in binary32. *)
Lemma gain_targets_unfold (blend : spec_float) :
  gain_targets powf blend
  = if SFltb zero blend && SFltb blend fifty
    then (one, powf f_10 (f_mul (f_sub blend fifty) f_0_04))
    else if SFltb blend hundred && SFltb fifty blend
    then (powf f_10 (f_mul (f_sub blend fifty) (f_opp f_0_04)), one)
    else if SFeqb blend fifty then (one, one)
    else if SFeqb blend hundred then (zero, one)
    else (one, zero).
Proof. reflexivity. Qed.

Ltac by_cases blend :=
  rewrite gain_targets_unfold;
  repeat match goal with
         | |- context [powf ?a ?b] =>
             let w := fresh "w" in generalize (powf a b); intro w
         end;
  generalize one; intro u;
  rewrite ?hundred_eq, ?fifty_eq, ?zero_eq;
  unfold SFeqb, SFltb, SFcompare;
  destruct blend as [sg|sg| |sg m e];
  try destruct sg; cbv beta iota delta [andb];
  cmp_cases;
  intros; try discriminate; try reflexivity.

(** C6. The gain targets [(dry, wet)] follow the piecewise law of the
    blend control, and every other value of the control, negative, above
    100 or not a number, gives [(1, 0)]. *)
Theorem gain_targets_piecewise (blend : spec_float) :
  (SFeqb blend zero = true -> gain_targets powf blend = (one, zero))
  /\ (SFltb zero blend = true -> SFltb blend fifty = true ->
      gain_targets powf blend
      = (one, powf f_10 (f_mul (f_sub blend fifty) f_0_04)))
  /\ (SFeqb blend fifty = true -> gain_targets powf blend = (one, one))
  /\ (SFltb fifty blend = true -> SFltb blend hundred = true ->
      gain_targets powf blend
      = (powf f_10 (f_mul (f_sub blend fifty) (f_opp f_0_04)), one))
  /\ (SFeqb blend hundred = true -> gain_targets powf blend = (zero, one))
  /\ (SFltb blend zero = true -> gain_targets powf blend = (one, zero))
  /\ (SFltb hundred blend = true -> gain_targets powf blend = (one, zero))
  /\ (blend = S754_nan -> gain_targets powf blend = (one, zero))
  /\ (SFltb zero blend && SFltb blend fifty = false ->
      SFltb fifty blend && SFltb blend hundred = false ->
      SFeqb blend fifty = false -> SFeqb blend hundred = false ->
      gain_targets powf blend = (one, zero)).
Proof.
  repeat split.
  - by_cases blend.
  - intros H1 H2. rewrite gain_targets_unfold. now rewrite H1, H2.
  - by_cases blend.
  - by_cases blend.
  - by_cases blend.
  - by_cases blend.
  - by_cases blend.
  - intros ->. reflexivity.
  - intros H1 H2 H3 H4. rewrite gain_targets_unfold.
    rewrite H1. rewrite Bool.andb_comm, H2. now rewrite H3, H4.
Qed.

End GainTargets.

(** ** Concrete runs *)

(** C1, at [n_fade_samples = 4], [n_loop_samples = 20], [pos_w = 2] and
    the input sample 1.0 on both channels: the capture stores 0.0 at index
    2 of both tapes, where a linear fade-in stores 1.0 * (2.0/4.0) = 0.5.
    The quotient [1/n_fade_samples] is an [int] quotient, hence 0. *)
Theorem capture_fade_in_stores_zero :
  stored_at 2 (sample_step 4 20 one zero one one (capturing 2) ramp_tape)
  = Done (zero, zero)
  /\ fade_coeff 4 20 2 = Done zero
  /\ f_mul one half = S754_finite false 8388608 (-24)
  /\ zero = S754_zero false.
Proof. repeat split; vm_compute; reflexivity. Qed.

(** The same at the tail: at [pos_w = 17] a linear fade-out stores
    1.0 * ((20 - 1 - 17) / 4.0) = 0.5, the code stores 0.0. *)
Example capture_fade_out_stores_zero :
  stored_at 17 (sample_step 4 20 one zero one one (capturing 17) ramp_tape)
  = Done (zero, zero).
Proof. vm_compute. reflexivity. Qed.

(** Between the fades the sample is stored as it is. *)
Example capture_flat_stores_input :
  stored_at 7 (sample_step 4 20 one zero one one (capturing 7) ramp_tape)
  = Done (one, one).
Proof. vm_compute. reflexivity. Qed.

(** The crossfade coefficients in binary32: at offset 1 of a fade of 4
    samples in a loop of 20 both are 0.0, and their sum is 0.0, not 1.0. *)
Lemma crossfade_coefficients_sum_to_zero :
  fade_coeff 4 20 (20 - 4 + 1) = Done (S754_zero false)
  /\ fade_coeff 4 20 1 = Done (S754_zero false)
  /\ f_add (S754_zero false) (S754_zero false) = S754_zero false
  /\ one = S754_finite false 8388608 (-23).
Proof. repeat split; vm_compute; reflexivity. Qed.

(** C2 fails on the code: a block of length 0 with the trigger control at
    1.0 turns [listening] on. *)
Lemma zero_block_latches_trigger :
  listening fresh = false
  /\ forall powf,
       outcome (run powf fresh zero one [] [] 0)
       = Done (true, true, 0, 0, [], [], []).
Proof. split; [reflexivity|]. intros powf. vm_compute. reflexivity. Qed.

(** C10 fails on the code when [n_fade_samples = n_loop_samples]: the
    read cursor wraps to [n_fade_samples], which is [n_loop_samples]; the
    next sample reads index [n_loop_samples], and the block ends with
    [pos_r = n_loop_samples]. *)
Lemma read_cursor_leaves_loop :
  (n_fade_samples fade_is_loop <= n_loop_samples fade_is_loop <= MAX_TAPE_LEN)
  /\ (0 <= pos_w fade_is_loop <= n_loop_samples fade_is_loop)
  /\ (0 <= pos_r fade_is_loop < n_loop_samples fade_is_loop)
  /\ forall powf,
       outcome (run powf fade_is_loop zero zero [zero; zero] [zero; zero] 2)
       = Done (false, true, 0, 4, [zero; zero], [zero; zero],
               [3; 3; 3; 3; 4; 4; 4; 4]).
Proof.
  split; [|split; [|split]];
    try (unfold fade_is_loop; cbn [n_fade_samples n_loop_samples pos_w pos_r];
         int_bounds).
  intros powf. vm_compute. reflexivity.
Qed.

(** C7 fails on the code: in binary32 the smoothing has a fixed point
    short of the target.  With both targets at 1.0 (blend 50) a block of
    3000 samples takes the gains from 0.0 to 1 - 50 * 2^-24, where every
    further sample leaves them: the distance to the target stays
    50 * 2^-24 and neither shrinks by 0.99 per sample nor tends to 0. *)
Lemma smoothing_stalls_in_binary32 :
  (forall powf, gain_targets powf fifty = (one, one))
  /\ (forall powf,
        gains (run powf fresh fifty zero long_silence long_silence long_block)
        = Done (stalled, stalled))
  /\ smooth one stalled = stalled
  /\ f_sub one stalled = S754_finite false 13107200 (-42).
Proof.
  split; [|split; [|split]]; try intros powf; vm_compute; reflexivity.
Qed.

(** The same in a build that contracts the expression.  With the product
    [gain * 0.99f] fused into the addition, 3000 samples take a gain from
    0.0 towards the target 1.0 to 1 - 34 * 2^-24, where every further
    sample leaves it; with the product [target * 0.01f] fused, to
    1 - 50 * 2^-24 as without contraction. *)
Lemma smoothing_stalls_when_fused :
  Nat.iter long_block (smooth_fused_gain one) zero = stalled_fused
  /\ smooth_fused_gain one stalled_fused = stalled_fused
  /\ Nat.iter long_block (smooth_fused_target one) zero = stalled
  /\ smooth_fused_target one stalled = stalled.
Proof. split; [|split; [|split]]; vm_compute; reflexivity. Qed.

(** ** Witnesses of the general statements *)

Lemma playback_wet_sample_witness :
  let wet c :=
    if 20 - 4 <=? l_pos_r (playing 17)
    then f_add (tape_of c ramp_tape (l_pos_r (playing 17)))
               (tape_of c ramp_tape (l_pos_r (playing 17) - (20 - 4)))
    else tape_of c ramp_tape (l_pos_r (playing 17)) in
  exists v' t',
    sample_step 4 20 one one one one (playing 17) ramp_tape
    = Done (v',
            mix one (wet Left) (smooth one (l_dry_gain (playing 17)))
                (smooth one (l_wet_gain (playing 17))),
            mix one (wet Right) (smooth one (l_dry_gain (playing 17)))
                (smooth one (l_wet_gain (playing 17))),
            t')
    /\ tape_l t' = tape_l ramp_tape /\ tape_r t' = tape_r ramp_tape.
Proof.
  refine (@playback_wet_sample spec_float Binary32.arith 4 20 one one one one
            (playing 17) ramp_tape _ _ _ _ _);
    unfold playing; cbn [l_pos_r l_looping l_listening];
    first [reflexivity | int_bounds].
Defined.

Lemma read_cursor_wraps_to_fade_witness :
  exists v' o_l o_r t',
    sample_step 4 20 one one one one (playing 19) ramp_tape
    = Done (v', o_l, o_r, t')
    /\ l_looping v' = true /\ l_listening v' = false
    /\ (l_pos_r (playing 19) + 1 = 20 -> l_pos_r v' = 4)
    /\ (l_pos_r (playing 19) + 1 < 20 -> l_pos_r v' = l_pos_r (playing 19) + 1)
    /\ (4 <= l_pos_r (playing 19) -> 4 <= l_pos_r v').
Proof.
  refine (@read_cursor_wraps_to_fade spec_float Binary32.arith 4 20 one one one one
            (playing 19) ramp_tape _ _ _ _ _);
    unfold playing; cbn [l_pos_r l_looping l_listening];
    first [reflexivity | int_bounds].
Defined.

(** The wrap, evaluated: from the last position of the loop the read
    cursor goes to 4, and the sample folds index 3 onto index 19. *)
Example read_cursor_wrap_evaluated :
  res_bind (sample_step 4 20 one one one one (playing 19) ramp_tape)
    (fun '(v', _, _, t') => Done (l_pos_r v', touched t'))
  = Done (4, [19; 3; 19; 3]).
Proof. vm_compute. reflexivity. Qed.

End InBinary32.

(** * The gain smoothing *)

Section Smoothing.

Import Float32.

(** C7, as far as it holds.  In every arithmetic, that of the code
    included, and whatever the flags, a sample replaces each gain by
    [target * 0.01f + gain * 0.99f]; a block of [n] samples returns, with
    each gain the result of [n] such updates towards the target of the
    block. *)
Theorem gain_smoothing_every_sample :
  (forall (F : Type) (A : SampleArith F) (nf nl : Z)
          (t_dry t_wet cur_l cur_r : F) (v : locals F) (t : tape F),
      lengths_ok nf nl -> cursors_ok nl v -> in_loop nl (touched t) ->
      exists v' o_l o_r t',
        sample_step nf nl t_dry t_wet cur_l cur_r v t = Done (v', o_l, o_r, t')
        /\ l_dry_gain v' = f_add (f_mul t_dry f_0_01) (f_mul (l_dry_gain v) f_0_99)
        /\ l_wet_gain v' = f_add (f_mul t_wet f_0_01) (f_mul (l_wet_gain v) f_0_99))
  /\ (forall (F : Type) (A : SampleArith F) (powf : F -> F -> F)
             (self : BollieRetain F) (ctl_blend ctl_trigger : F)
             (n : nat) (input_l input_r : list F),
         0 <= n_fade_samples self < n_loop_samples self ->
         n_loop_samples self <= MAX_TAPE_LEN ->
         0 <= pos_w self <= n_loop_samples self ->
         0 <= pos_r self < n_loop_samples self ->
         (n <= length input_l)%nat -> (n <= length input_r)%nat ->
         exists b,
           run powf self ctl_blend ctl_trigger input_l input_r n = Done b
           /\ dry_gain (final b)
              = Nat.iter n (smooth (fst (gain_targets powf ctl_blend))) (dry_gain self)
           /\ wet_gain (final b)
              = Nat.iter n (smooth (snd (gain_targets powf ctl_blend))) (wet_gain self)).
Proof.
  split.
  - intros F A nf nl t_dry t_wet cur_l cur_r v t Hlen Hv Ht.
    destruct (@sample_step_safe F A nf nl t_dry t_wet cur_l cur_r v t Hlen Hv Ht)
      as (v' & o_l & o_r & t' & Hstep & _ & _ & Hdry & Hwet).
    exists v', o_l, o_r, t'. repeat split; assumption.
  - intros F A powf self ctl_blend ctl_trigger n input_l input_r Hnf Hnl Hw Hr Hil Hir.
    destruct (@run_safe F A powf self ctl_blend ctl_trigger
                input_l input_r n Hnf Hnl Hw Hr Hil Hir)
      as (b & Hrun & _ & _ & _ & _ & _ & Hdry & Hwet & _).
    exists b. split; [assumption|]. split; assumption.
Qed.

(** In binary32, on a playing instance with the blend control at 50, which
    never calls [powf]. *)
Lemma gain_smoothing_every_sample_witness :
  exists b,
    run (fun _ _ => one) fresh fifty zero [one; one] [one; one] 2 = Done b
    /\ dry_gain (final b)
       = Nat.iter 2 (smooth (fst (gain_targets (fun _ _ => one) fifty)))
                  (dry_gain fresh)
    /\ wet_gain (final b)
       = Nat.iter 2 (smooth (snd (gain_targets (fun _ _ => one) fifty)))
                  (wet_gain fresh).
Proof.
  refine (proj2 gain_smoothing_every_sample spec_float Binary32.arith
            (fun _ _ => one) fresh fifty zero 2%nat [one; one] [one; one]
            _ _ _ _ _ _);
    unfold fresh, activate;
    cbn [n_fade_samples n_loop_samples pos_w pos_r length];
    first [int_bounds | lia].
Defined.

End Smoothing.

(** * Construction *)

Section Construction.

Context {F : Type} {A : SampleArith F}.

(** C9, as the code has it.  [instantiate] never looks at [MAX_TAPE_LEN]:
    whenever the four conversions to [int] it makes are defined, it returns
    an instance, whose loop length is [(int)(5*rate)] and whose fade length
    is [(int)rate], whatever their size. *)
Theorem instantiate_ignores_capacity (rate : spec_float) (c1 n_fade c2 n_loop : Z) :
  Binary64.ceil_int (Binary64.mul (Binary32.literal 2 10) rate) = Done c1 ->
  Binary64.trunc rate = Done n_fade ->
  Binary64.ceil_int (Binary64.mul (Binary32.literal 5 10) rate) = Done c2 ->
  Binary64.trunc (Binary64.mul (Binary64.of_int 5) rate) = Done n_loop ->
  exists self : BollieRetain F,
    instantiate rate = Done self
    /\ n_loop_samples self = n_loop
    /\ n_fade_samples self = n_fade
    /\ pos_w self = 0 /\ pos_r self = 0
    /\ listening self = false /\ looping self = false.
Proof.
  intros H1 H2 H3 H4. unfold instantiate.
  rewrite H1, H2, H3, H4. cbn [res_bind].
  eexists. split; [reflexivity|]. cbn. repeat split.
Qed.

End Construction.

Section ConstructionInBinary32.

Import Float32.

(** C9 fails on the code: at 192001 Hz [instantiate] returns an instance
    whose loop of 960005 samples is longer than the tapes. *)
Lemma instantiate_accepts_oversized_loop :
  lengths (instantiate (F := spec_float) rate_192001) = Done (192001, 960005)
  /\ MAX_TAPE_LEN < 960005.
Proof. split; [vm_compute; reflexivity|int_bounds]. Qed.

(** A capture with these lengths runs off the end of the tape. *)
Example oversized_loop_overruns_tape :
  stored_at 960000
    (sample_step 192001 960005 one zero one one (capturing 960000) ramp_tape)
  = Fault OutOfBounds.
Proof. vm_compute. reflexivity. Qed.

(** The lengths at 4 Hz and at the usual sample rates: the fade lasts one
    second, the loop five. *)
Example lengths_at_usual_rates :
  map (fun r => lengths (instantiate (F := spec_float) (Binary64.of_int r)))
      [4; 44100; 48000; 88200; 96000; 176400; 192000]
  = [Done (4, 20); Done (44100, 220500); Done (48000, 240000); Done (88200, 441000);
     Done (96000, 480000); Done (176400, 882000); Done (192000, 960000)].
Proof. vm_compute. reflexivity. Qed.

Lemma instantiate_ignores_capacity_witness :
  exists self : BollieRetain spec_float,
    instantiate rate_192001 = Done self
    /\ n_loop_samples self = 960005
    /\ n_fade_samples self = 192001
    /\ pos_w self = 0 /\ pos_r self = 0
    /\ listening self = false /\ looping self = false.
Proof.
  refine (@instantiate_ignores_capacity spec_float Binary32.arith rate_192001
            38401 192001 96001 960005 _ _ _ _);
    vm_compute; reflexivity.
Defined.

Lemma crossfade_coefficients_vanish_witness :
  fade_coeff (F := spec_float) 4 20 (20 - 4 + 1) = Done (f_of_int 0)
  /\ fade_coeff (F := spec_float) 4 20 1 = Done (f_of_int 0).
Proof.
  refine (@crossfade_coefficients_vanish spec_float Binary32.arith 4 20 1 _ _ _);
    int_bounds.
Defined.

End ConstructionInBinary32.

(** * Witnesses in real arithmetic *)

Section InReals.

Import Ideal.

Lemma run_keeps_cursor_bounds_witness :
  exists b,
    run powf fresh 25%R 1%R [1%R; 1%R] [1%R; 1%R] 2 = Done b
    /\ Forall (fun i => 0 <= i < n_loop_samples fresh) (accesses b)
    /\ 0 <= pos_w (final b) <= n_loop_samples (final b)
    /\ 0 <= pos_r (final b) < n_loop_samples (final b)
    /\ n_fade_samples (final b) = n_fade_samples fresh
    /\ n_loop_samples (final b) = n_loop_samples fresh.
Proof.
  refine (@run_keeps_cursor_bounds R Exact.arith powf fresh 25%R 1%R
            [1%R; 1%R] [1%R; 1%R] 2 _ _ _ _ _ _);
    unfold fresh, activate;
    cbn [n_fade_samples n_loop_samples pos_w pos_r length];
    first [int_bounds | lia].
Defined.

Lemma zero_fade_never_divides_witness :
  run powf zero_fade 25%R 1%R [1%R; 1%R] [1%R; 1%R] 2 <> Fault DivByZero
  /\ (forall pw, 0 <= pw < n_loop_samples zero_fade ->
                 n_loop_samples zero_fade <= CInt.INT_MAX ->
                 fade_coeff (n_fade_samples zero_fade) (n_loop_samples zero_fade) pw
                 = Done (f_of_int 1)).
Proof.
  refine (@zero_fade_never_divides R Exact.arith powf zero_fade 25%R 1%R
            [1%R; 1%R] [1%R; 1%R] 2 _ _);
    unfold zero_fade; cbn [n_fade_samples pos_w]; first [reflexivity | lia].
Defined.


End InReals.

(** * Whole blocks *)

(** ** The access log is only appended to *)

Section LogNaturality.

Context {F : Type} {A : SampleArith F}.

Lemma appends_ret X (x : X) : appends_log (ret (F := F) x).
Proof. intros lg t. reflexivity. Qed.

Lemma appends_lift X (r : res X) : appends_log (lift (F := F) r).
Proof. intros lg t. unfold lift. destruct r; reflexivity. Qed.

Lemma appends_load (c : channel) (i : Z) : appends_log (load (F := F) c i).
Proof.
  intros lg t. unfold load. destruct (in_tape i); [|reflexivity].
  cbn. unfold relog. cbn. rewrite app_assoc. destruct c; reflexivity.
Qed.

Lemma appends_store (c : channel) (i : Z) (x : F) : appends_log (store c i x).
Proof.
  intros lg t. unfold store. destruct (in_tape i); [|reflexivity].
  destruct c; cbn; unfold relog; cbn; rewrite app_assoc; reflexivity.
Qed.

Lemma appends_bind X Y (c : M F X) (k : X -> M F Y) :
  appends_log c -> (forall x, appends_log (k x)) -> appends_log (bind c k).
Proof.
  intros Hc Hk lg t. unfold bind. rewrite Hc.
  destruct (c t) as [[x t']|f]; cbn; [apply Hk|reflexivity].
Qed.

Ltac appends :=
  repeat first
    [ apply appends_ret
    | apply appends_lift
    | apply appends_load
    | apply appends_store
    | apply appends_bind; [|intros]
    | match goal with
      | |- appends_log (if ?b then _ else _) => destruct b
      | |- appends_log (match ?x with (_, _) => _ end) => destruct x
      | |- appends_log (let (_, _) := ?x in _) => destruct x
      end ].

Lemma appends_sample_step (nf nl : Z) (td tw cur_l cur_r : F) (v : locals F) :
  appends_log (sample_step nf nl td tw cur_l cur_r v).
Proof. unfold sample_step. appends. Qed.

Lemma appends_sample_loop (nf nl : Z) (td tw : F) (il ir : list F) :
  forall (k i : nat) (v : locals F),
    appends_log (sample_loop k i nf nl td tw il ir v).
Proof.
  induction k as [|k IH]; intros i v; cbn [sample_loop].
  - apply appends_ret.
  - appends.
    + apply appends_sample_step.
    + apply IH.
Qed.

End LogNaturality.

(** ** The sample loop, piece by piece *)

Section WholeBlocks.

Context {F : Type} {A : SampleArith F}.
Variable powf : F -> F -> F.

Lemma input_at_skipn (input : list F) (n i : nat) :
  input_at (skipn n input) i = input_at input (n + i).
Proof. unfold input_at. now rewrite nth_error_skipn. Qed.

(** One iteration of the loop, spelled out. *)
Lemma sample_loop_S (nf nl : Z) (td tw : F) (il ir : list F)
    (k i : nat) (v : locals F) (t : tape F) :
  sample_loop (S k) i nf nl td tw il ir v t
  = match input_at il i with
    | Fault f => Fault f
    | Done x_l =>
        match input_at ir i with
        | Fault f => Fault f
        | Done x_r =>
            match sample_step nf nl td tw x_l x_r v t with
            | Fault f => Fault f
            | Done (v1, o_l, o_r, t1) =>
                match sample_loop k (S i) nf nl td tw il ir v1 t1 with
                | Fault f => Fault f
                | Done (v2, os_l, os_r, t2) => Done (v2, o_l :: os_l, o_r :: os_r, t2)
                end
            end
        end
    end.
Proof.
  cbn [sample_loop]. unfold bind, lift, ret.
  destruct (input_at il i) as [x_l|f]; [|reflexivity].
  destruct (input_at ir i) as [x_r|f]; [|reflexivity].
  destruct (sample_step nf nl td tw x_l x_r v t) as [[[[v1 o_l] o_r] t1]|f];
    [|reflexivity].
  destruct (sample_loop k (S i) nf nl td tw il ir v1 t1)
    as [[[[v2 os_l] os_r] t2]|f]; reflexivity.
Qed.

(** The loop from index [n] on is the loop from index 0 on the inputs
    without their first [n] samples. *)
Lemma sample_loop_skipn (nf nl : Z) (td tw : F) (il ir : list F) (n : nat) :
  forall (k i : nat) (v : locals F) (t : tape F),
    sample_loop k (n + i) nf nl td tw il ir v t
    = sample_loop k i nf nl td tw (skipn n il) (skipn n ir) v t.
Proof.
  induction k as [|k IH]; intros i v t; [reflexivity|].
  rewrite !sample_loop_S, !input_at_skipn.
  destruct (input_at il (n + i)) as [x_l|f]; [|reflexivity].
  destruct (input_at ir (n + i)) as [x_r|f]; [|reflexivity].
  destruct (sample_step nf nl td tw x_l x_r v t) as [[[[v1 o_l] o_r] t1]|f];
    [|reflexivity].
  replace (S (n + i)) with (n + S i)%nat by lia. rewrite IH. reflexivity.
Qed.

(** A loop of [n + m] iterations is a loop of [n] followed by one of [m]. *)
Lemma sample_loop_app (nf nl : Z) (td tw : F) (il ir : list F) (m : nat) :
  forall (n i : nat) (v : locals F) (t : tape F),
    sample_loop (n + m) i nf nl td tw il ir v t
    = match sample_loop n i nf nl td tw il ir v t with
      | Done (v1, o_l1, o_r1, t1) =>
          match sample_loop m (i + n) nf nl td tw il ir v1 t1 with
          | Done (v2, o_l2, o_r2, t2) => Done (v2, o_l1 ++ o_l2, o_r1 ++ o_r2, t2)
          | Fault f => Fault f
          end
      | Fault f => Fault f
      end.
Proof.
  induction n as [|n IH]; intros i v t.
  - cbn [Nat.add sample_loop ret]. rewrite Nat.add_0_r.
    destruct (sample_loop m i nf nl td tw il ir v t) as [[[[v2 o_l2] o_r2] t2]|f];
      reflexivity.
  - cbn [Nat.add]. rewrite !sample_loop_S.
    destruct (input_at il i) as [x_l|f]; [|reflexivity].
    destruct (input_at ir i) as [x_r|f]; [|reflexivity].
    destruct (sample_step nf nl td tw x_l x_r v t) as [[[[v1 o_l] o_r] t1]|f];
      [|reflexivity].
    rewrite IH.
    replace (S i + n)%nat with (i + S n)%nat by lia.
    destruct (sample_loop n (S i) nf nl td tw il ir v1 t1)
      as [[[[v2 o_l2] o_r2] t2]|f]; [|reflexivity].
    destruct (sample_loop m (i + S n) nf nl td tw il ir v2 t2)
      as [[[[v3 o_l3] o_r3] t3]|f]; reflexivity.
Qed.

(** The loop writes one output sample per iteration and channel. *)
Lemma sample_loop_length (nf nl : Z) (td tw : F) (il ir : list F) :
  forall (k i : nat) (v v' : locals F) (o_l o_r : list F) (t t' : tape F),
    sample_loop k i nf nl td tw il ir v t = Done (v', o_l, o_r, t') ->
    length o_l = k /\ length o_r = k.
Proof.
  induction k as [|k IH]; intros i v v' o_l o_r t t' Hloop.
  - cbn in Hloop. injection Hloop as _ <- <- _. split; reflexivity.
  - rewrite sample_loop_S in Hloop.
    destruct (input_at il i) as [x_l|]; [|discriminate].
    destruct (input_at ir i) as [x_r|]; [|discriminate].
    destruct (sample_step nf nl td tw x_l x_r v t) as [[[[v1 o1] o2] t1]|];
      [|discriminate].
    destruct (sample_loop k (S i) nf nl td tw il ir v1 t1)
      as [[[[v2 os_l] os_r] t2]|] eqn:Hrest; [|discriminate].
    injection Hloop as _ <- <- _.
    destruct (IH _ _ _ _ _ _ _ Hrest) as [H1 H2]. cbn. now rewrite H1, H2.
Qed.

(** ** Capture *)

(** One sample of a capture. *)
Lemma capture_step (nf nl : Z) (td tw cur_l cur_r : F) (v : locals F) (t : tape F) :
  l_listening v = true -> l_looping v = false ->
  0 <= nf <= CInt.INT_MAX -> nl <= MAX_TAPE_LEN -> 0 <= l_pos_w v < nl ->
  exists c,
    fade_coeff nf nl (l_pos_w v) = Done c
    /\ sample_step nf nl td tw cur_l cur_r v t
       = Done (mkLocals (smooth td (l_dry_gain v)) (smooth tw (l_wet_gain v))
                        (l_pos_w v + 1) (l_pos_r v) true false,
               mix cur_l (f_of_int 0) (smooth td (l_dry_gain v)) (smooth tw (l_wet_gain v)),
               mix cur_r (f_of_int 0) (smooth td (l_dry_gain v)) (smooth tw (l_wet_gain v)),
               stored Right (stored Left t (l_pos_w v) (f_mul cur_l c))
                      (l_pos_w v) (f_mul cur_r c)).
Proof.
  intros Hlis Hloo Hnf Hnl Hw.
  destruct v as [dg wg pw pr lis loo];
    cbn [l_pos_w l_pos_r l_listening l_looping l_dry_gain l_wet_gain] in *.
  subst lis loo.
  destruct (@fade_coeff_defined F A nf nl pw) as [c Hc]; try int_bounds.
  exists c. split; [exact Hc|].
  unfold sample_step;
    cbn [l_pos_w l_pos_r l_listening l_looping l_dry_gain l_wet_gain andb negb].
  destruct (Z.ltb_spec pw nl); [|lia].
  unfold bind, lift. rewrite Hc.
  rewrite !store_ok by int_bounds.
  rewrite add_ok by int_bounds.
  reflexivity.
Qed.

Lemma capture_loop (nf nl : Z) (td tw : F) (il ir : list F) :
  0 <= nf <= CInt.INT_MAX -> nl <= MAX_TAPE_LEN ->
  forall (k i : nat) (v : locals F) (t : tape F),
    l_listening v = true -> l_looping v = false ->
    0 <= l_pos_w v -> l_pos_w v + Z.of_nat k <= nl ->
    (i + k <= length il)%nat -> (i + k <= length ir)%nat ->
    exists o_l o_r t',
      sample_loop k i nf nl td tw il ir v t
      = Done (mkLocals (Nat.iter k (smooth td) (l_dry_gain v))
                       (Nat.iter k (smooth tw) (l_wet_gain v))
                       (l_pos_w v + Z.of_nat k) (l_pos_r v) true false,
              o_l, o_r, t')
      /\ (forall j, (j < k)%nat -> captured nf nl il ir i (l_pos_w v) t' j)
      /\ (forall j, (j < k)%nat ->
                    dry_output td tw (l_dry_gain v) (l_wet_gain v) il ir i o_l o_r j)
      /\ (forall idx, idx < l_pos_w v \/ l_pos_w v + Z.of_nat k <= idx ->
                      tape_l t' idx = tape_l t idx /\ tape_r t' idx = tape_r t idx).
Proof.
  intros Hnf Hnl. induction k as [|k IH]; intros i v t Hlis Hloo Hw Hend Hil Hir.
  - exists [], [], t. cbn [sample_loop ret Nat.iter Z.of_nat].
    rewrite Z.add_0_r. destruct v; cbn in *. subst.
    repeat split; try lia; intros j Hj; lia.
  - destruct (@input_at_ok F il i) as [x_l Hx_l]; [lia|].
    destruct (@input_at_ok F ir i) as [x_r Hx_r]; [lia|].
    destruct (@capture_step nf nl td tw x_l x_r v t Hlis Hloo Hnf Hnl)
      as (c & Hc & Hstep); [lia|].
    set (v1 := mkLocals _ _ (l_pos_w v + 1) _ _ _) in Hstep.
    set (t1 := stored Right _ _ _) in Hstep.
    destruct (IH (S i) v1 t1) as (os_l & os_r & t2 & Hloop & Hcap & Hout & Hfr);
      subst v1; cbn [l_pos_w l_pos_r l_listening l_looping l_dry_gain l_wet_gain] in *;
      try reflexivity; try lia.
    exists (mix x_l (f_of_int 0) (smooth td (l_dry_gain v)) (smooth tw (l_wet_gain v))
            :: os_l),
           (mix x_r (f_of_int 0) (smooth td (l_dry_gain v)) (smooth tw (l_wet_gain v))
            :: os_r), t2.
    split; [|split; [|split]].
    + rewrite sample_loop_S, Hx_l, Hx_r, Hstep, Hloop.
      rewrite <- !Nat.iter_succ_r.
      replace (l_pos_w v + 1 + Z.of_nat k) with (l_pos_w v + Z.of_nat (S k)) by lia.
      reflexivity.
    + intros [|j] Hj.
      * unfold captured. exists c, x_l, x_r.
        rewrite Nat.add_0_r, Z.add_0_r.
        unfold input_at in Hx_l, Hx_r.
        destruct (nth_error il i); [|discriminate].
        destruct (nth_error ir i); [|discriminate].
        injection Hx_l as ->. injection Hx_r as ->.
        destruct (Hfr (l_pos_w v)) as [Hl Hr]; [lia|].
        rewrite Hl, Hr. subst t1. cbn [stored tape_l tape_r].
        repeat split; try assumption; apply upd_same.
      * destruct (Hcap j) as (c' & y_l & y_r & H1 & H2 & H3 & H4 & H5); [lia|].
        exists c', y_l, y_r.
        replace (l_pos_w v + Z.of_nat (S j)) with (l_pos_w v + 1 + Z.of_nat j) by lia.
        replace (i + S j)%nat with (S i + j)%nat by lia.
        repeat split; assumption.
    + intros [|j] Hj.
      * exists x_l, x_r. rewrite Nat.add_0_r.
        unfold input_at in Hx_l, Hx_r.
        destruct (nth_error il i); [|discriminate].
        destruct (nth_error ir i); [|discriminate].
        injection Hx_l as ->. injection Hx_r as ->.
        repeat split; reflexivity.
      * destruct (Hout j) as (y_l & y_r & H1 & H2 & H3 & H4); [lia|].
        exists y_l, y_r.
        replace (i + S j)%nat with (S i + j)%nat by lia.
        cbn [nth_error]. rewrite H3, H4.
        rewrite <- !Nat.iter_succ_r.
        repeat split; assumption || reflexivity.
    + intros idx Hidx.
      destruct (Hfr idx) as [Hl Hr]; [lia|].
      rewrite Hl, Hr. subst t1. cbn [stored tape_l tape_r].
      split; apply upd_other; lia.
Qed.


(** ** Playback *)

Lemma advance_bounds (nf nl pr : Z) :
  0 <= nf < nl -> 0 <= pr < nl ->
  0 <= advance nf nl pr < nl /\ (nf <= pr -> nf <= advance nf nl pr).
Proof.
  intros Hnf Hpr. unfold advance.
  destruct (Z.leb_spec nl (pr + 1)); lia.
Qed.

Lemma advance_iter_bounds (nf nl : Z) (k : nat) (pr : Z) :
  0 <= nf < nl -> 0 <= pr < nl ->
  0 <= Nat.iter k (advance nf nl) pr < nl
  /\ (nf <= pr -> nf <= Nat.iter k (advance nf nl) pr).
Proof.
  intros Hnf Hpr. induction k as [|k IH].
  - cbn. lia.
  - rewrite Nat.iter_succ.
    destruct IH as [IH1 IH2].
    destruct (@advance_bounds nf nl (Nat.iter k (advance nf nl) pr) Hnf IH1)
      as [H1 H2].
    split; [exact H1|]. intros H. apply H2, IH2, H.
Qed.

(** Below the end of the loop the cursor just counts. *)
Lemma advance_iter_linear (nf nl : Z) (k : nat) (pr : Z) :
  pr + Z.of_nat k < nl -> Nat.iter k (advance nf nl) pr = pr + Z.of_nat k.
Proof.
  induction k as [|k IH]; intros H.
  - cbn. lia.
  - rewrite Nat.iter_succ, IH by lia. unfold advance.
    destruct (Z.leb_spec nl (pr + Z.of_nat k + 1)); lia.
Qed.

(** From a position beyond the fade-in region the cursor is back where it
    was after [n_loop_samples - n_fade_samples] samples. *)
Lemma advance_period (nf nl pr : Z) :
  0 <= nf -> nf <= pr < nl ->
  Nat.iter (Z.to_nat (nl - nf)) (advance nf nl) pr = pr.
Proof.
  intros Hnf Hpr.
  replace (Z.to_nat (nl - nf))
    with (Z.to_nat (pr - nf) + (1 + Z.to_nat (nl - 1 - pr)))%nat by lia.
  rewrite Nat.iter_add. cbn [Nat.add]. rewrite Nat.iter_succ.
  rewrite (@advance_iter_linear nf nl (Z.to_nat (nl - 1 - pr)) pr) by lia.
  replace (advance nf nl (pr + Z.of_nat (Z.to_nat (nl - 1 - pr)))) with nf.
  - rewrite advance_iter_linear by lia. lia.
  - unfold advance.
    destruct (Z.leb_spec nl (pr + Z.of_nat (Z.to_nat (nl - 1 - pr)) + 1)); lia.
Qed.

Lemma playback_loop (nf nl : Z) (td tw : F) (il ir : list F) :
  0 <= nf < nl -> nl <= MAX_TAPE_LEN ->
  forall (k i : nat) (v : locals F) (t : tape F),
    l_looping v = true -> l_listening v = false ->
    0 <= l_pos_r v < nl ->
    (i + k <= length il)%nat -> (i + k <= length ir)%nat ->
    exists o_l o_r t',
      sample_loop k i nf nl td tw il ir v t
      = Done (mkLocals (Nat.iter k (smooth td) (l_dry_gain v))
                       (Nat.iter k (smooth tw) (l_wet_gain v))
                       (l_pos_w v) (Nat.iter k (advance nf nl) (l_pos_r v))
                       false true,
              o_l, o_r, t')
      /\ tape_l t' = tape_l t /\ tape_r t' = tape_r t.
Proof.
  intros Hnf Hnl. induction k as [|k IH]; intros i v t Hloo Hlis Hr Hil Hir.
  - exists [], [], t. cbn.
    destruct v; cbn in *. subst. repeat split.
  - destruct (@input_at_ok F il i) as [x_l Hx_l]; [lia|].
    destruct (@input_at_ok F ir i) as [x_r Hx_r]; [lia|].
    assert (Hnf' : 0 <= nf <= nl) by lia.
    pose proof (@playback_step F A nf nl td tw x_l x_r v t Hnf' Hnl Hr Hloo Hlis)
      as Hstep.
    cbv zeta in Hstep.
    rewrite sample_loop_S, Hx_l, Hx_r, Hstep.
    match goal with
    | |- context [sample_loop k (S i) nf nl td tw il ir ?v1 ?t1] =>
        destruct (IH (S i) v1 t1) as (os_l & os_r & t2 & Hloop & Hl & Hr2);
        cbn [l_pos_w l_pos_r l_listening l_looping l_dry_gain l_wet_gain];
        try reflexivity; try lia
    end.
    + apply advance_bounds; assumption.
    + rewrite Hloop.
      cbn [l_pos_w l_pos_r l_listening l_looping l_dry_gain l_wet_gain].
      do 3 eexists. split.
      * change (if nl <=? l_pos_r v + 1 then nf else l_pos_r v + 1)
          with (advance nf nl (l_pos_r v)).
        rewrite <- !Nat.iter_succ_r. reflexivity.
      * rewrite Hl, Hr2.
        destruct (nl - nf <=? l_pos_r v); split; reflexivity.
Qed.


(** What a run of playback writes to the output ports. *)
Lemma playback_loop_outputs (nf nl : Z) (td tw : F) (il ir : list F) :
  0 <= nf < nl -> nl <= MAX_TAPE_LEN ->
  forall (k i : nat) (v v' : locals F) (o_l o_r : list F) (t t' : tape F),
    l_looping v = true -> l_listening v = false ->
    0 <= l_pos_r v < nl ->
    sample_loop k i nf nl td tw il ir v t = Done (v', o_l, o_r, t') ->
    forall j, (j < k)%nat ->
      played nf nl td tw (l_dry_gain v) (l_wet_gain v) il ir i
             (tape_l t) (tape_r t) (l_pos_r v) o_l o_r j.
Proof.
  intros Hnf Hnl.
  induction k as [|k IH]; intros i v v' o_l o_r t t' Hloo Hlis Hr Hloop j Hj;
    [lia|].
  assert (Hnf' : 0 <= nf <= nl) by lia.
  pose proof (fun x_l x_r =>
                @playback_step F A nf nl td tw x_l x_r v t Hnf' Hnl Hr Hloo Hlis)
    as Hstep.
  cbv zeta in Hstep.
  rewrite sample_loop_S in Hloop. unfold input_at in Hloop.
  destruct (nth_error il i) as [x_l|] eqn:Hx_l; [|discriminate].
  destruct (nth_error ir i) as [x_r|] eqn:Hx_r; [|discriminate].
  rewrite Hstep in Hloop.
  match type of Hloop with
  | context [sample_loop k (S i) nf nl td tw il ir ?a ?b] =>
      set (w1 := a) in Hloop; set (t1 := b) in Hloop;
      assert (Ht1 : tape_l t1 = tape_l t /\ tape_r t1 = tape_r t)
        by (subst t1; destruct (nl - nf <=? l_pos_r v); split; reflexivity)
  end.
  destruct (sample_loop k (S i) nf nl td tw il ir w1 t1)
    as [[[[v2 os_l] os_r] t2]|] eqn:Hrest; [|discriminate].
  injection Hloop as _ <- <- _.
  destruct j as [|j].
  - exists x_l, x_r. rewrite Nat.add_0_r.
    cbn [nth_error Nat.iter]. unfold wet_at.
    repeat split; assumption || reflexivity.
  - assert (Hr1 : 0 <= l_pos_r w1 < nl)
      by (subst w1; cbn [l_pos_r]; apply advance_bounds; assumption).
    destruct (IH (S i) w1 v2 os_l os_r t1 t2 eq_refl eq_refl Hr1 Hrest j)
      as (y_l & y_r & H1 & H2 & H3 & H4); [lia|].
    destruct Ht1 as [Hl1 Hr1']. rewrite Hl1, Hr1' in *.
    exists y_l, y_r.
    replace (i + S j)%nat with (S i + j)%nat by lia.
    cbn [nth_error]. rewrite H3, H4.
    subst w1. cbn [l_pos_r l_dry_gain l_wet_gain].
    change (if nl <=? l_pos_r v + 1 then nf else l_pos_r v + 1)
      with (advance nf nl (l_pos_r v)).
    rewrite <- !Nat.iter_succ_r.
    repeat split; assumption || reflexivity.
Qed.


(** ** Playback with a pending trigger *)

(** One sample of playback with a pending trigger. *)
Lemma pending_step (nf nl : Z) (td tw cur_l cur_r : F) (v : locals F) (t : tape F) :
  l_listening v = true -> l_looping v = true ->
  0 <= nf <= nl -> nl <= MAX_TAPE_LEN -> 0 <= l_pos_r v < nl ->
  sample_step nf nl td tw cur_l cur_r v t
  = Done (mkLocals (smooth td (l_dry_gain v)) (smooth tw (l_wet_gain v))
                   (l_pos_w v)
                   (if l_pos_r v + 1 =? nl then 0 else l_pos_r v + 1)
                   true
                   (negb (l_pos_r v + 1 =? nl)),
          mix cur_l (tape_l t (l_pos_r v))
              (smooth td (l_dry_gain v)) (smooth tw (l_wet_gain v)),
          mix cur_r (tape_r t (l_pos_r v))
              (smooth td (l_dry_gain v)) (smooth tw (l_wet_gain v)),
          logged (logged t (l_pos_r v)) (l_pos_r v)).
Proof.
  intros Hlis Hloo Hnf Hnl Hr.
  destruct v as [dg wg pw pr lis loo];
    cbn [l_pos_w l_pos_r l_listening l_looping l_dry_gain l_wet_gain] in *.
  subst lis loo.
  unfold sample_step;
    cbn [l_pos_w l_pos_r l_listening l_looping l_dry_gain l_wet_gain andb negb].
  unfold bind, lift.
  rewrite sub_ok by int_bounds.
  rewrite Bool.andb_false_r.
  unfold bind. rewrite !load_ok by int_bounds.
  unfold ret. rewrite add_ok by int_bounds.
  destruct (Z.leb_spec nl (pr + 1)); destruct (Z.eqb_spec (pr + 1) nl); try lia;
    reflexivity.
Qed.

(** The samples between a trigger and the end of the running pass. *)
Lemma pending_loop (nf nl : Z) (td tw : F) (il ir : list F) :
  0 <= nf <= nl -> nl <= MAX_TAPE_LEN ->
  forall (k i : nat) (v : locals F) (t : tape F),
    l_listening v = true -> l_looping v = true ->
    0 <= l_pos_r v < nl -> l_pos_r v + Z.of_nat k <= nl ->
    (i + k <= length il)%nat -> (i + k <= length ir)%nat ->
    exists o_l o_r t',
      sample_loop k i nf nl td tw il ir v t
      = Done (mkLocals (Nat.iter k (smooth td) (l_dry_gain v))
                       (Nat.iter k (smooth tw) (l_wet_gain v))
                       (l_pos_w v)
                       (if l_pos_r v + Z.of_nat k =? nl then 0
                        else l_pos_r v + Z.of_nat k)
                       true
                       (negb (l_pos_r v + Z.of_nat k =? nl)),
              o_l, o_r, t')
      /\ tape_l t' = tape_l t /\ tape_r t' = tape_r t.
Proof.
  intros Hnf Hnl. induction k as [|k IH]; intros i v t Hlis Hloo Hr Hend Hil Hir.
  - exists [], [], t. cbn [sample_loop ret Z.of_nat]. rewrite Z.add_0_r.
    destruct (Z.eqb_spec (l_pos_r v) nl); [lia|].
    destruct v; cbn in *. subst. repeat split.
  - destruct (@input_at_ok F il i) as [x_l Hx_l]; [lia|].
    destruct (@input_at_ok F ir i) as [x_r Hx_r]; [lia|].
    rewrite sample_loop_S, Hx_l, Hx_r.
    rewrite (@pending_step nf nl td tw x_l x_r v t Hlis Hloo Hnf Hnl Hr).
    destruct k as [|k].
    + cbn [sample_loop ret]. do 3 eexists. split.
      * replace (l_pos_r v + Z.of_nat 1) with (l_pos_r v + 1) by lia. reflexivity.
      * split; reflexivity.
    + destruct (Z.eqb_spec (l_pos_r v + 1) nl) as [Heq|Hne]; [lia|].
      cbn [negb].
      match goal with
      | |- context [sample_loop (S k) (S i) nf nl td tw il ir ?v1 ?t1] =>
          destruct (IH (S i) v1 t1) as (os_l & os_r & t2 & Hloop & Hl & Hr2);
          cbn [l_pos_w l_pos_r l_listening l_looping l_dry_gain l_wet_gain];
          try reflexivity; try lia
      end.
      rewrite Hloop.
      cbn [l_pos_w l_pos_r l_listening l_looping l_dry_gain l_wet_gain].
      do 3 eexists. split.
      * rewrite <- !Nat.iter_succ_r.
        replace (l_pos_r v + 1 + Z.of_nat (S k)) with (l_pos_r v + Z.of_nat (S (S k)))
          by lia.
        reflexivity.
      * rewrite Hl, Hr2. split; reflexivity.
Qed.

(** Every sample keeps at least one of the two flags set. *)
Lemma sample_step_keeps_phase (nf nl : Z) (td tw cur_l cur_r : F)
    (v v' : locals F) (o_l o_r : F) (t t' : tape F) :
  sample_step nf nl td tw cur_l cur_r v t = Done (v', o_l, o_r, t') ->
  l_listening v || l_looping v = true ->
  l_listening v' || l_looping v' = true.
Proof.
  intros Hstep Hph.
  destruct v as [dg wg pw pr lis loo];
    cbn [l_pos_w l_pos_r l_listening l_looping l_dry_gain l_wet_gain] in *.
  unfold sample_step in Hstep;
    cbn [l_pos_w l_pos_r l_listening l_looping l_dry_gain l_wet_gain] in Hstep.
  destruct lis, loo; cbn [andb negb orb] in *; try discriminate.
  - unfold bind, lift, load, ret, CInt.sub, CInt.add, CInt.chk in Hstep.
    repeat match type of Hstep with
           | context [if ?b then _ else _] => destruct b
           end;
      try discriminate; injection Hstep as <- _ _ _; reflexivity.
  - destruct (pw <? nl).
    + unfold bind, lift in Hstep.
      destruct (fade_coeff nf nl pw); [|discriminate].
      unfold store, ret, CInt.add, CInt.chk in Hstep.
      repeat match type of Hstep with
             | context [if ?b then _ else _] => destruct b
             end;
        try discriminate; injection Hstep as <- _ _ _; reflexivity.
    + injection Hstep as <- _ _ _. reflexivity.
  - unfold bind, lift, load, ret, CInt.sub, CInt.add, CInt.chk in Hstep.
    repeat match type of Hstep with
           | context [if ?b then _ else _] => destruct b
           end;
      try discriminate; injection Hstep as <- _ _ _; reflexivity.
Qed.

Lemma sample_loop_keeps_phase (nf nl : Z) (td tw : F) (il ir : list F) :
  forall (k i : nat) (v v' : locals F) (o_l o_r : list F) (t t' : tape F),
    sample_loop k i nf nl td tw il ir v t = Done (v', o_l, o_r, t') ->
    l_listening v || l_looping v = true ->
    l_listening v' || l_looping v' = true.
Proof.
  induction k as [|k IH]; intros i v v' o_l o_r t t' Hloop Hph.
  - cbn in Hloop. injection Hloop as <- _ _ _. assumption.
  - rewrite sample_loop_S in Hloop.
    destruct (input_at il i) as [x_l|]; [|discriminate].
    destruct (input_at ir i) as [x_r|]; [|discriminate].
    destruct (sample_step nf nl td tw x_l x_r v t) as [[[[v1 o1] o2] t1]|] eqn:Hstep;
      [|discriminate].
    destruct (sample_loop k (S i) nf nl td tw il ir v1 t1)
      as [[[[v2 os_l] os_r] t2]|] eqn:Hrest; [|discriminate].
    injection Hloop as <- _ _ _.
    eapply IH; [exact Hrest|].
    eapply sample_step_keeps_phase; eassumption.
Qed.

(** The sample that ends a capture. *)
Lemma capture_end_step (nf nl : Z) (td tw cur_l cur_r : F) (v : locals F) (t : tape F) :
  l_listening v = true -> l_looping v = false -> nl <= l_pos_w v ->
  sample_step nf nl td tw cur_l cur_r v t
  = Done (mkLocals (smooth td (l_dry_gain v)) (smooth tw (l_wet_gain v))
                   0 (l_pos_r v) false true,
          mix cur_l (f_of_int 0) (smooth td (l_dry_gain v)) (smooth tw (l_wet_gain v)),
          mix cur_r (f_of_int 0) (smooth td (l_dry_gain v)) (smooth tw (l_wet_gain v)),
          t).
Proof.
  intros Hlis Hloo Hw.
  destruct v as [dg wg pw pr lis loo];
    cbn [l_pos_w l_pos_r l_listening l_looping l_dry_gain l_wet_gain] in *.
  subst lis loo.
  unfold sample_step;
    cbn [l_pos_w l_pos_r l_listening l_looping l_dry_gain l_wet_gain andb negb].
  destruct (Z.ltb_spec pw nl); [lia|reflexivity].
Qed.

(** ** Blocks of [run] *)

(** A block of a capture that does not go beyond the end of the loop. *)
Lemma run_capture (self : BollieRetain F) (ctl_blend ctl_trigger : F)
    (input_l input_r : list F) (n : nat) :
  listening self = true -> looping self = false ->
  0 <= n_fade_samples self <= CInt.INT_MAX ->
  n_loop_samples self <= MAX_TAPE_LEN ->
  0 <= pos_w self -> pos_w self + Z.of_nat n <= n_loop_samples self ->
  (n <= length input_l)%nat -> (n <= length input_r)%nat ->
  exists b,
    run powf self ctl_blend ctl_trigger input_l input_r n = Done b
    /\ pos_w (final b) = pos_w self + Z.of_nat n
    /\ pos_r (final b) = pos_r self
    /\ listening (final b) = true /\ looping (final b) = false
    /\ (forall j, (j < n)%nat ->
          captured (n_fade_samples self) (n_loop_samples self) input_l input_r 0
                   (pos_w self)
                   (mkTape (buffer_l (final b)) (buffer_r (final b)) []) j)
    /\ (forall j, (j < n)%nat ->
          dry_output (fst (gain_targets powf ctl_blend))
                     (snd (gain_targets powf ctl_blend))
                     (dry_gain self) (wet_gain self) input_l input_r 0
                     (output_l b) (output_r b) j)
    /\ (forall idx, idx < pos_w self \/ pos_w self + Z.of_nat n <= idx ->
          buffer_l (final b) idx = buffer_l self idx
          /\ buffer_r (final b) idx = buffer_r self idx).
Proof.
  intros Hlis Hloo Hnf Hnl Hw Hend Hil Hir. unfold run, latch.
  rewrite Hlis, Bool.andb_false_r.
  destruct (gain_targets powf ctl_blend) as [t_dry t_wet]. cbn [fst snd].
  destruct (@capture_loop (n_fade_samples self) (n_loop_samples self)
              t_dry t_wet input_l input_r Hnf Hnl n 0%nat
              (mkLocals (dry_gain self) (wet_gain self) (pos_w self) (pos_r self)
                        true (looping self))
              (mkTape (buffer_l self) (buffer_r self) []))
    as (o_l & o_r & t' & Hloop & Hcap & Hout & Hfr);
    cbn [l_pos_w l_pos_r l_listening l_looping l_dry_gain l_wet_gain] in *;
    try assumption; try reflexivity.
  rewrite Hloop. eexists. split; [reflexivity|].
  cbn [final pos_w pos_r listening looping buffer_l buffer_r output_l output_r].
  repeat split; try reflexivity.
  - intros j Hj. destruct (Hcap j Hj) as (c & x_l & x_r & H1 & H2 & H3 & H4 & H5).
    exists c, x_l, x_r. repeat split; assumption.
  - exact Hout.
  - apply (Hfr idx H).
  - apply (Hfr idx H).
Qed.

(** A block of playback without trigger. *)
Lemma run_playback (self : BollieRetain F) (ctl_blend ctl_trigger : F)
    (input_l input_r : list F) (n : nat) :
  looping self = true -> listening self = false ->
  f_ltb (f_of_int 0) ctl_trigger = false ->
  0 <= n_fade_samples self < n_loop_samples self ->
  n_loop_samples self <= MAX_TAPE_LEN ->
  0 <= pos_r self < n_loop_samples self ->
  (n <= length input_l)%nat -> (n <= length input_r)%nat ->
  exists b,
    run powf self ctl_blend ctl_trigger input_l input_r n = Done b
    /\ buffer_l (final b) = buffer_l self /\ buffer_r (final b) = buffer_r self
    /\ pos_w (final b) = pos_w self
    /\ listening (final b) = false /\ looping (final b) = true
    /\ pos_r (final b)
       = Nat.iter n (advance (n_fade_samples self) (n_loop_samples self)) (pos_r self).
Proof.
  intros Hloo Hlis Htrig Hnf Hnl Hr Hil Hir. unfold run, latch.
  rewrite Htrig. cbn [andb]. rewrite Hlis, Hloo.
  destruct (gain_targets powf ctl_blend) as [t_dry t_wet].
  destruct (@playback_loop (n_fade_samples self) (n_loop_samples self)
              t_dry t_wet input_l input_r Hnf Hnl n 0%nat
              (mkLocals (dry_gain self) (wet_gain self) (pos_w self) (pos_r self)
                        false true)
              (mkTape (buffer_l self) (buffer_r self) []))
    as (o_l & o_r & t' & Hloop & Hl & Hr');
    cbn [l_pos_w l_pos_r l_listening l_looping l_dry_gain l_wet_gain] in *;
    try assumption; try reflexivity.
  rewrite Hloop. eexists. split; [reflexivity|].
  cbn [final pos_w pos_r listening looping buffer_l buffer_r].
  repeat split; assumption.
Qed.

(** A block of playback with a pending trigger, up to the end of the pass. *)
Lemma run_pending (self : BollieRetain F) (ctl_blend ctl_trigger : F)
    (input_l input_r : list F) (n : nat) :
  looping self = true ->
  f_ltb (f_of_int 0) ctl_trigger = true \/ listening self = true ->
  0 <= n_fade_samples self <= n_loop_samples self ->
  n_loop_samples self <= MAX_TAPE_LEN ->
  0 <= pos_r self < n_loop_samples self ->
  pos_r self + Z.of_nat n <= n_loop_samples self ->
  (n <= length input_l)%nat -> (n <= length input_r)%nat ->
  exists b,
    run powf self ctl_blend ctl_trigger input_l input_r n = Done b
    /\ buffer_l (final b) = buffer_l self /\ buffer_r (final b) = buffer_r self
    /\ pos_w (final b) = pos_w self
    /\ listening (final b) = true
    /\ looping (final b) = negb (pos_r self + Z.of_nat n =? n_loop_samples self)
    /\ pos_r (final b)
       = (if pos_r self + Z.of_nat n =? n_loop_samples self then 0
          else pos_r self + Z.of_nat n).
Proof.
  intros Hloo Htrig Hnf Hnl Hr Hend Hil Hir. unfold run.
  assert (Hlatch : latch ctl_trigger (listening self) = true).
  { unfold latch. destruct Htrig as [-> | ->].
    - destruct (listening self); reflexivity.
    - rewrite Bool.andb_false_r. reflexivity. }
  rewrite Hlatch, Hloo.
  destruct (gain_targets powf ctl_blend) as [t_dry t_wet].
  destruct (@pending_loop (n_fade_samples self) (n_loop_samples self)
              t_dry t_wet input_l input_r Hnf Hnl n 0%nat
              (mkLocals (dry_gain self) (wet_gain self) (pos_w self) (pos_r self)
                        true true)
              (mkTape (buffer_l self) (buffer_r self) []))
    as (o_l & o_r & t' & Hloop & Hl & Hr');
    cbn [l_pos_w l_pos_r l_listening l_looping l_dry_gain l_wet_gain] in *;
    try assumption; try reflexivity.
  rewrite Hloop. eexists. split; [reflexivity|].
  cbn [final pos_w pos_r listening looping buffer_l buffer_r].
  repeat split; assumption.
Qed.

(** A block keeps at least one of the two flags set. *)
Lemma run_keeps_phase (self : BollieRetain F) (ctl_blend ctl_trigger : F)
    (input_l input_r : list F) (n : nat) (b : block F) :
  run powf self ctl_blend ctl_trigger input_l input_r n = Done b ->
  listening self || looping self = true ->
  listening (final b) || looping (final b) = true.
Proof.
  unfold run. destruct (gain_targets powf ctl_blend) as [t_dry t_wet].
  destruct (sample_loop n 0 _ _ _ _ _ _ _ _) as [[[[v' o_l] o_r] t']|f] eqn:Hloop;
    [|discriminate].
  intros [= <-] Hph. cbn [final listening looping].
  eapply sample_loop_keeps_phase; [exact Hloop|].
  cbn [l_listening l_looping]. unfold latch.
  destruct (f_ltb (f_of_int 0) ctl_trigger), (listening self), (looping self);
    cbn in *; congruence.
Qed.

(** The block that ends a capture, spelled out: the samples up to the end
    of the loop and one more. *)
Lemma run_capture_end (self : BollieRetain F) (ctl_blend ctl_trigger : F)
    (input_l input_r : list F) (n : nat) :
  listening self = true -> looping self = false ->
  0 <= n_fade_samples self <= CInt.INT_MAX ->
  n_loop_samples self <= MAX_TAPE_LEN ->
  0 <= pos_w self -> pos_w self + Z.of_nat n = n_loop_samples self ->
  (n + 1 <= length input_l)%nat -> (n + 1 <= length input_r)%nat ->
  exists dg wg o_l o_r t',
    run powf self ctl_blend ctl_trigger input_l input_r (n + 1)
    = Done {| final := {| rate := rate self;
                          n_loop_samples := n_loop_samples self;
                          n_fade_samples := n_fade_samples self;
                          pos_w := 0;
                          pos_r := pos_r self;
                          listening := false;
                          looping := true;
                          dry_gain := dg;
                          wet_gain := wg;
                          buffer_l := tape_l t';
                          buffer_r := tape_r t' |};
              output_l := o_l;
              output_r := o_r;
              accesses := touched t' |}
    /\ length o_l = (n + 1)%nat /\ length o_r = (n + 1)%nat
    /\ (forall j, (j < n)%nat ->
          captured (n_fade_samples self) (n_loop_samples self) input_l input_r 0
                   (pos_w self) t' j).
Proof.
  intros Hlis Hloo Hnf Hnl Hw Hend Hil Hir. unfold run, latch.
  rewrite Hlis, Bool.andb_false_r.
  destruct (gain_targets powf ctl_blend) as [t_dry t_wet].
  destruct (@capture_loop (n_fade_samples self) (n_loop_samples self)
              t_dry t_wet input_l input_r Hnf Hnl n 0%nat
              (mkLocals (dry_gain self) (wet_gain self) (pos_w self) (pos_r self)
                        true (looping self))
              (mkTape (buffer_l self) (buffer_r self) []))
    as (o_l & o_r & t' & Hloop & Hcap & Hout & Hfr);
    cbn [l_pos_w l_pos_r l_listening l_looping l_dry_gain l_wet_gain] in *;
    try assumption; try reflexivity; try lia.
  destruct (@sample_loop_length (n_fade_samples self) (n_loop_samples self)
              t_dry t_wet input_l input_r n 0%nat _ _ _ _ _ _ Hloop) as [Hl1 Hl2].
  rewrite sample_loop_app, Hloop.
  destruct (@input_at_ok F input_l (0 + n)) as [x_l Hx_l]; [lia|].
  destruct (@input_at_ok F input_r (0 + n)) as [x_r Hx_r]; [lia|].
  rewrite sample_loop_S, Hx_l, Hx_r.
  rewrite capture_end_step
    by (cbn [l_pos_w l_listening l_looping]; first [reflexivity | lia]).
  cbn [sample_loop ret].
  cbn [l_pos_w l_pos_r l_listening l_looping l_dry_gain l_wet_gain].
  do 5 eexists. split; [reflexivity|].
  split; [rewrite length_app, Hl1; reflexivity|].
  split; [rewrite length_app, Hl2; reflexivity|].
  exact Hcap.
Qed.

(** X1. A block of a capture that ends at or before the end of the loop
    stores, for each of its samples, the two inputs times the capture
    coefficient of the write position, at that position of the two tapes;
    it leaves every other position as it was, moves the write cursor on by
    the block length, and keeps the read cursor and the flags, whatever the
    trigger control is. *)
Theorem capture_block_stores_input (self : BollieRetain F) (ctl_blend ctl_trigger : F)
    (input_l input_r : list F) (n : nat) :
  listening self = true -> looping self = false ->
  0 <= n_fade_samples self <= CInt.INT_MAX ->
  n_loop_samples self <= MAX_TAPE_LEN ->
  0 <= pos_w self -> pos_w self + Z.of_nat n <= n_loop_samples self ->
  (n <= length input_l)%nat -> (n <= length input_r)%nat ->
  exists b,
    run powf self ctl_blend ctl_trigger input_l input_r n = Done b
    /\ pos_w (final b) = pos_w self + Z.of_nat n
    /\ pos_r (final b) = pos_r self
    /\ listening (final b) = true /\ looping (final b) = false
    /\ (forall j, (j < n)%nat ->
          exists c x_l x_r,
            fade_coeff (n_fade_samples self) (n_loop_samples self)
              (pos_w self + Z.of_nat j) = Done c
            /\ nth_error input_l j = Some x_l
            /\ nth_error input_r j = Some x_r
            /\ buffer_l (final b) (pos_w self + Z.of_nat j) = f_mul x_l c
            /\ buffer_r (final b) (pos_w self + Z.of_nat j) = f_mul x_r c)
    /\ (forall idx, idx < pos_w self \/ pos_w self + Z.of_nat n <= idx ->
          buffer_l (final b) idx = buffer_l self idx
          /\ buffer_r (final b) idx = buffer_r self idx).
Proof.
  intros Hlis Hloo Hnf Hnl Hw Hend Hil Hir.
  destruct (@run_capture self ctl_blend ctl_trigger input_l input_r n)
    as (b & Hrun & Hpw & Hpr & Hl & Hp & Hcap & _ & Hfr); try assumption.
  exists b. do 5 (split; [assumption|]). split; [exact Hcap|exact Hfr].
Qed.

(** X2. During such a block of a capture nothing of the tape is heard: each
    output sample is the input sample times the dry gain plus a wet sample
    of 0 times the wet gain, with the two gains smoothed once per sample
    from the values the block started with. *)
Theorem capture_block_output_is_dry (self : BollieRetain F) (ctl_blend ctl_trigger : F)
    (input_l input_r : list F) (n : nat) :
  listening self = true -> looping self = false ->
  0 <= n_fade_samples self <= CInt.INT_MAX ->
  n_loop_samples self <= MAX_TAPE_LEN ->
  0 <= pos_w self -> pos_w self + Z.of_nat n <= n_loop_samples self ->
  (n <= length input_l)%nat -> (n <= length input_r)%nat ->
  exists b,
    run powf self ctl_blend ctl_trigger input_l input_r n = Done b
    /\ (forall j, (j < n)%nat ->
          exists x_l x_r,
            nth_error input_l j = Some x_l
            /\ nth_error input_r j = Some x_r
            /\ nth_error (output_l b) j
               = Some (mix x_l (f_of_int 0)
                         (Nat.iter (S j) (smooth (fst (gain_targets powf ctl_blend)))
                                   (dry_gain self))
                         (Nat.iter (S j) (smooth (snd (gain_targets powf ctl_blend)))
                                   (wet_gain self)))
            /\ nth_error (output_r b) j
               = Some (mix x_r (f_of_int 0)
                         (Nat.iter (S j) (smooth (fst (gain_targets powf ctl_blend)))
                                   (dry_gain self))
                         (Nat.iter (S j) (smooth (snd (gain_targets powf ctl_blend)))
                                   (wet_gain self)))).
Proof.
  intros Hlis Hloo Hnf Hnl Hw Hend Hil Hir.
  destruct (@run_capture self ctl_blend ctl_trigger input_l input_r n)
    as (b & Hrun & _ & _ & _ & _ & _ & Hout & _); try assumption.
  exists b. split; [assumption|].
  intros j Hj. exact (Hout j Hj).
Qed.

(** X3. A capture ends by itself: the block that holds the samples up to
    the end of the loop and one more leaves the instance in playback
    ([listening] clear, [looping] set) with the write cursor back at 0 and
    the read cursor where it was, and the tapes hold the faded input of
    every sample of the capture. *)
Theorem capture_completes (self : BollieRetain F) (ctl_blend ctl_trigger : F)
    (input_l input_r : list F) (n : nat) :
  listening self = true -> looping self = false ->
  0 <= n_fade_samples self <= CInt.INT_MAX ->
  n_loop_samples self <= MAX_TAPE_LEN ->
  0 <= pos_w self -> pos_w self + Z.of_nat n = n_loop_samples self ->
  (n + 1 <= length input_l)%nat -> (n + 1 <= length input_r)%nat ->
  exists b,
    run powf self ctl_blend ctl_trigger input_l input_r (n + 1) = Done b
    /\ listening (final b) = false /\ looping (final b) = true
    /\ pos_w (final b) = 0
    /\ pos_r (final b) = pos_r self
    /\ length (output_l b) = (n + 1)%nat /\ length (output_r b) = (n + 1)%nat
    /\ (forall j, (j < n)%nat ->
          exists c x_l x_r,
            fade_coeff (n_fade_samples self) (n_loop_samples self)
              (pos_w self + Z.of_nat j) = Done c
            /\ nth_error input_l j = Some x_l
            /\ nth_error input_r j = Some x_r
            /\ buffer_l (final b) (pos_w self + Z.of_nat j) = f_mul x_l c
            /\ buffer_r (final b) (pos_w self + Z.of_nat j) = f_mul x_r c).
Proof.
  intros Hlis Hloo Hnf Hnl Hw Hend Hil Hir.
  destruct (@run_capture_end self ctl_blend ctl_trigger input_l input_r n)
    as (dg & wg & o_l & o_r & t' & Hrun & Hl1 & Hl2 & Hcap); try assumption.
  rewrite Hrun. eexists. split; [reflexivity|].
  cbn [final pos_w pos_r listening looping buffer_l buffer_r output_l output_r].
  do 6 (split; [reflexivity || assumption|]).
  intros j Hj. destruct (Hcap j Hj) as (c & y_l & y_r & H1 & H2 & H3 & H4 & H5).
  exists c, y_l, y_r. repeat split; assumption.
Qed.

(** X4. A block of playback without trigger never writes: the two tapes,
    the write cursor and the flags are what they were, so no capture starts
    without a trigger, and the read cursor has made one step of the loop per
    sample: on by one, and from the end of the loop to [n_fade_samples]. *)
Theorem playback_block_keeps_tape (self : BollieRetain F) (ctl_blend ctl_trigger : F)
    (input_l input_r : list F) (n : nat) :
  looping self = true -> listening self = false ->
  f_ltb (f_of_int 0) ctl_trigger = false ->
  0 <= n_fade_samples self < n_loop_samples self ->
  n_loop_samples self <= MAX_TAPE_LEN ->
  0 <= pos_r self < n_loop_samples self ->
  (n <= length input_l)%nat -> (n <= length input_r)%nat ->
  exists b,
    run powf self ctl_blend ctl_trigger input_l input_r n = Done b
    /\ buffer_l (final b) = buffer_l self /\ buffer_r (final b) = buffer_r self
    /\ pos_w (final b) = pos_w self
    /\ listening (final b) = false /\ looping (final b) = true
    /\ pos_r (final b)
       = Nat.iter n (advance (n_fade_samples self) (n_loop_samples self)) (pos_r self)
    /\ (pos_r self + Z.of_nat n < n_loop_samples self ->
        pos_r (final b) = pos_r self + Z.of_nat n)
    /\ (n_fade_samples self <= pos_r self -> n_fade_samples self <= pos_r (final b)).
Proof.
  intros Hloo Hlis Htrig Hnf Hnl Hr Hil Hir.
  destruct (@run_playback self ctl_blend ctl_trigger input_l input_r n)
    as (b & Hrun & Hbl & Hbr & Hpw & Hl & Hp & Hpr); try assumption.
  exists b. repeat split; try assumption.
  - intros Hlin. rewrite Hpr. apply advance_iter_linear. assumption.
  - intros Hge. rewrite Hpr. now apply advance_iter_bounds.
Qed.

(** X5. The loop that is heard is [n_loop_samples - n_fade_samples] samples
    long: from a read position at or beyond [n_fade_samples], a block of
    that many samples of playback without trigger brings the read cursor
    back to where it was, with tapes, write cursor and flags unchanged. *)
Theorem playback_period (self : BollieRetain F) (ctl_blend ctl_trigger : F)
    (input_l input_r : list F) (n : nat) :
  looping self = true -> listening self = false ->
  f_ltb (f_of_int 0) ctl_trigger = false ->
  0 <= n_fade_samples self ->
  n_loop_samples self <= MAX_TAPE_LEN ->
  n_fade_samples self <= pos_r self < n_loop_samples self ->
  n = Z.to_nat (n_loop_samples self - n_fade_samples self) ->
  (n <= length input_l)%nat -> (n <= length input_r)%nat ->
  exists b,
    run powf self ctl_blend ctl_trigger input_l input_r n = Done b
    /\ pos_r (final b) = pos_r self
    /\ pos_w (final b) = pos_w self
    /\ listening (final b) = false /\ looping (final b) = true
    /\ buffer_l (final b) = buffer_l self /\ buffer_r (final b) = buffer_r self.
Proof.
  intros Hloo Hlis Htrig Hnf Hnl Hr Hn Hil Hir.
  destruct (@run_playback self ctl_blend ctl_trigger input_l input_r n)
    as (b & Hrun & Hbl & Hbr & Hpw & Hl & Hp & Hpr); try assumption; try lia.
  exists b. repeat split; try assumption.
  rewrite Hpr, Hn. apply advance_period; assumption.
Qed.

(** X12. What a block of playback without trigger plays: with [looping]
    set and [listening] clear, every output port gets one sample per input
    sample, and the [j]-th is the input times the dry gain plus the wet
    sample times the wet gain, where both gains have been smoothed [j + 1]
    times towards the targets of the blend control and the wet sample is
    read off the tape the block started with, at the position the read
    cursor has after [j] steps of the loop (with the sample
    [n_loop_samples - n_fade_samples] earlier added in the last
    [n_fade_samples] positions); the instance keeps the gains smoothed [n]
    times. *)
Theorem playback_block_output (self : BollieRetain F) (ctl_blend ctl_trigger : F)
    (input_l input_r : list F) (n : nat) :
  looping self = true -> listening self = false ->
  f_ltb (f_of_int 0) ctl_trigger = false ->
  0 <= n_fade_samples self < n_loop_samples self ->
  n_loop_samples self <= MAX_TAPE_LEN ->
  0 <= pos_r self < n_loop_samples self ->
  (n <= length input_l)%nat -> (n <= length input_r)%nat ->
  exists b,
    run powf self ctl_blend ctl_trigger input_l input_r n = Done b
    /\ length (output_l b) = n /\ length (output_r b) = n
    /\ (forall j, (j < n)%nat ->
          played (n_fade_samples self) (n_loop_samples self)
                 (fst (gain_targets powf ctl_blend))
                 (snd (gain_targets powf ctl_blend))
                 (dry_gain self) (wet_gain self) input_l input_r 0
                 (buffer_l self) (buffer_r self) (pos_r self)
                 (output_l b) (output_r b) j)
    /\ dry_gain (final b)
       = Nat.iter n (smooth (fst (gain_targets powf ctl_blend))) (dry_gain self)
    /\ wet_gain (final b)
       = Nat.iter n (smooth (snd (gain_targets powf ctl_blend))) (wet_gain self).
Proof.
  intros Hloo Hlis Htrig Hnf Hnl Hr Hil Hir. unfold run, latch.
  rewrite Htrig. cbn [andb]. rewrite Hlis, Hloo.
  destruct (gain_targets powf ctl_blend) as [t_dry t_wet]. cbn [fst snd].
  destruct (@playback_loop (n_fade_samples self) (n_loop_samples self)
              t_dry t_wet input_l input_r Hnf Hnl n 0%nat
              (mkLocals (dry_gain self) (wet_gain self) (pos_w self) (pos_r self)
                        false true)
              (mkTape (buffer_l self) (buffer_r self) []))
    as (o_l & o_r & t' & Hloop & _);
    cbn [l_pos_w l_pos_r l_listening l_looping l_dry_gain l_wet_gain] in *;
    try assumption; try reflexivity.
  rewrite Hloop. eexists. split; [reflexivity|].
  cbn [final output_l output_r dry_gain wet_gain l_dry_gain l_wet_gain].
  pose proof Hloop as Hlen. apply sample_loop_length in Hlen.
  destruct Hlen as [Hlen_l Hlen_r].
  split; [assumption|]. split; [assumption|].
  split; [|split; reflexivity].
  intros j Hj.
  pose proof Hloop as Hout.
  apply playback_loop_outputs with (j := j) in Hout;
    cbn [l_pos_w l_pos_r l_listening l_looping l_dry_gain l_wet_gain tape_l tape_r]
      in *;
    try assumption; reflexivity.
Qed.


(** X6. A trigger during playback does not start the capture at once.  With
    [looping] set and the trigger control positive (or [listening] set
    already), a block that ends at or before the end of the running pass
    stores nothing: tapes and write cursor are what they were and
    [listening] is set; [looping] is cleared, and the read cursor set to 0,
    exactly when the block ends at the end of the pass. *)
Theorem trigger_waits_for_loop_end (self : BollieRetain F) (ctl_blend ctl_trigger : F)
    (input_l input_r : list F) (n : nat) :
  looping self = true ->
  f_ltb (f_of_int 0) ctl_trigger = true \/ listening self = true ->
  0 <= n_fade_samples self <= n_loop_samples self ->
  n_loop_samples self <= MAX_TAPE_LEN ->
  0 <= pos_r self < n_loop_samples self ->
  pos_r self + Z.of_nat n <= n_loop_samples self ->
  (n <= length input_l)%nat -> (n <= length input_r)%nat ->
  exists b,
    run powf self ctl_blend ctl_trigger input_l input_r n = Done b
    /\ buffer_l (final b) = buffer_l self /\ buffer_r (final b) = buffer_r self
    /\ pos_w (final b) = pos_w self
    /\ listening (final b) = true
    /\ (pos_r self + Z.of_nat n < n_loop_samples self ->
        looping (final b) = true /\ pos_r (final b) = pos_r self + Z.of_nat n)
    /\ (pos_r self + Z.of_nat n = n_loop_samples self ->
        looping (final b) = false /\ pos_r (final b) = 0).
Proof.
  intros Hloo Htrig Hnf Hnl Hr Hend Hil Hir.
  destruct (@run_pending self ctl_blend ctl_trigger input_l input_r n)
    as (b & Hrun & Hbl & Hbr & Hpw & Hl & Hp & Hpr); try assumption.
  exists b. repeat split; try assumption.
  - rewrite Hp. destruct (Z.eqb_spec (pos_r self + Z.of_nat n) (n_loop_samples self));
      [lia|reflexivity].
  - rewrite Hpr. destruct (Z.eqb_spec (pos_r self + Z.of_nat n) (n_loop_samples self));
      [lia|reflexivity].
  - rewrite Hp. destruct (Z.eqb_spec (pos_r self + Z.of_nat n) (n_loop_samples self));
      [reflexivity|lia].
  - rewrite Hpr. destruct (Z.eqb_spec (pos_r self + Z.of_nat n) (n_loop_samples self));
      [reflexivity|lia].
Qed.

(** X7. Without a positive trigger control the block size does not matter:
    a block of [n + m] samples leaves the instance, the outputs and the
    accesses that a block of the first [n] samples followed by a block of
    the remaining [m] leaves, faults included. *)
Theorem run_split (self : BollieRetain F) (ctl_blend ctl_trigger : F)
    (input_l input_r : list F) (n m : nat) :
  f_ltb (f_of_int 0) ctl_trigger = false ->
  run powf self ctl_blend ctl_trigger input_l input_r (n + m)
  = res_bind (run powf self ctl_blend ctl_trigger input_l input_r n) (fun b1 =>
    res_bind (run powf (final b1) ctl_blend ctl_trigger
                (skipn n input_l) (skipn n input_r) m) (fun b2 =>
    Done {| final := final b2;
            output_l := output_l b1 ++ output_l b2;
            output_r := output_r b1 ++ output_r b2;
            accesses := accesses b1 ++ accesses b2 |})).
Proof.
  intros Htrig. unfold run, latch. rewrite Htrig. cbn [andb].
  destruct (gain_targets powf ctl_blend) as [t_dry t_wet].
  rewrite sample_loop_app.
  destruct (sample_loop n 0 _ _ _ _ _ _ _ _) as [[[[v1 o_l1] o_r1] t1]|f];
    [|reflexivity].
  cbn [res_bind final n_fade_samples n_loop_samples dry_gain wet_gain pos_w pos_r
       listening looping buffer_l buffer_r output_l output_r accesses].
  rewrite <- (Nat.add_0_r (0 + n)), sample_loop_skipn.
  destruct v1 as [dg wg pw pr lis loo];
    cbn [l_dry_gain l_wet_gain l_pos_w l_pos_r l_listening l_looping].
  pose proof (@appends_sample_loop F A (n_fade_samples self) (n_loop_samples self)
                t_dry t_wet (skipn (0 + n) input_l) (skipn (0 + n) input_r) m 0%nat
                (mkLocals dg wg pw pr lis loo) (touched t1)
                (mkTape (tape_l t1) (tape_r t1) [])) as Hlog.
  unfold relog in Hlog at 1. cbn [tape_l tape_r touched] in Hlog.
  rewrite app_nil_r in Hlog.
  replace t1 with (mkTape (tape_l t1) (tape_r t1) (touched t1)) at 1
    by (destruct t1; reflexivity).
  rewrite Hlog. clear Hlog. cbn [Nat.add].
  destruct (sample_loop m 0 _ _ _ _ _ _ _ _) as [[[[v2 o_l2] o_r2] t2]|f];
    reflexivity.
Qed.

Lemma session_steady (nf nl : Z) :
  0 <= nf < nl -> nl <= MAX_TAPE_LEN ->
  forall (calls : list (host_block F)) (self : BollieRetain F),
    steady nf nl self -> Forall block_sized calls ->
    exists self' bs,
      session powf self calls = Done (self', bs)
      /\ Forall2 (fun hb b =>
                    length (output_l b) = hb_n_samples hb
                    /\ length (output_r b) = hb_n_samples hb
                    /\ Forall (fun i => 0 <= i < nl) (accesses b)) calls bs
      /\ steady nf nl self'.
Proof.
  intros Hnf Hnl. induction calls as [|hb rest IH]; intros self Hs Hsz.
  - exists self, []. split; [reflexivity|]. split; [constructor|assumption].
  - destruct Hs as (Hf & Hl & Hw & Hr & Hph).
    inversion Hsz as [|? ? [Hil Hir] Hrest]; subst.
    destruct (@run_safe F A powf self (hb_blend hb) (hb_trigger hb)
                (hb_input_l hb) (hb_input_r hb) (hb_n_samples hb))
      as (b & Hrun & Hf' & Hl' & Hw' & Hr' & Hacc & _ & _ & Hol & Hor);
      try assumption; try lia.
    pose proof (@run_keeps_phase _ _ _ _ _ _ _ Hrun Hph) as Hph'.
    destruct (IH (final b)) as (self' & bs & Hses & Hall & Hs');
      [repeat split; assumption || lia | assumption |].
    exists self', (b :: bs). cbn [session]. rewrite Hrun. cbn [res_bind].
    rewrite Hses. cbn [res_bind]. split; [reflexivity|].
    split; [|assumption].
    constructor; [|assumption]. repeat split; assumption.
Qed.

(** X8. After [activate], an instance whose lengths satisfy
    [0 <= n_fade_samples < n_loop_samples <= MAX_TAPE_LEN] serves every
    sequence of blocks that hold the samples they announce, whatever the
    controls: no block faults, each block puts out as many samples as it
    got and only accesses tape indices below [n_loop_samples], and in the
    end the cursors are within their bounds and at least one of [listening]
    and [looping] is set. *)
Theorem session_stays_safe (self : BollieRetain F) (calls : list (host_block F)) :
  0 <= n_fade_samples self < n_loop_samples self ->
  n_loop_samples self <= MAX_TAPE_LEN ->
  Forall block_sized calls ->
  exists self' bs,
    session powf (activate self) calls = Done (self', bs)
    /\ Forall2 (fun hb b =>
                  length (output_l b) = hb_n_samples hb
                  /\ length (output_r b) = hb_n_samples hb
                  /\ Forall (fun i => 0 <= i < n_loop_samples self) (accesses b))
               calls bs
    /\ n_fade_samples self' = n_fade_samples self
    /\ n_loop_samples self' = n_loop_samples self
    /\ 0 <= pos_w self' <= n_loop_samples self
    /\ 0 <= pos_r self' < n_loop_samples self
    /\ listening self' || looping self' = true.
Proof.
  intros Hnf Hnl Hsz.
  destruct (@session_steady (n_fade_samples self) (n_loop_samples self) Hnf Hnl
              calls (activate self))
    as (self' & bs & Hses & Hall & Hf & Hl & Hw & Hr & Hph); [|assumption|].
  - unfold steady, activate. cbn. repeat split; lia.
  - exists self', bs. repeat split; assumption || lia.
Qed.

(** X9. Whatever the blend control is, at least one of the two gain
    targets is 1: the control never turns both paths down. *)
Theorem gain_targets_one_is_unity (ctl_blend : F) :
  fst (gain_targets powf ctl_blend) = f_of_int 1
  \/ snd (gain_targets powf ctl_blend) = f_of_int 1.
Proof.
  unfold gain_targets.
  repeat match goal with
         | |- context [if ?b then _ else _] => destruct b
         end; cbn [fst snd]; auto.
Qed.

End WholeBlocks.

(** * The sample rates the tapes are made for *)

(** The doubles of [instantiate] are exact at integer rates: every product
    it forms has an integer mantissa below [2^53]. *)

Section ExactProducts.

(** [iter_pos] is iteration. *)
Lemma iter_pos_nat (X : Type) (f : X -> X) (p : positive) :
  forall x, SpecFloat.iter_pos f p x = Nat.iter (Pos.to_nat p) f x.
Proof.
  induction p as [p IH|p IH|]; intros x; cbn [SpecFloat.iter_pos].
  - rewrite !IH, Pos2Nat.inj_xI.
    replace (S (2 * Pos.to_nat p)) with (Pos.to_nat p + (Pos.to_nat p + 1))%nat by lia.
    rewrite !Nat.iter_add. reflexivity.
  - rewrite !IH, Pos2Nat.inj_xO.
    replace (2 * Pos.to_nat p)%nat with (Pos.to_nat p + Pos.to_nat p)%nat by lia.
    rewrite Nat.iter_add. reflexivity.
  - reflexivity.
Qed.

(** Halving an even mantissa loses nothing. *)
Lemma shr_1_even (z : Z) :
  0 < z -> (2 | z) -> shr_1 (exact_record z) = exact_record (z / 2).
Proof.
  intros Hz [q Hq]. subst z.
  rewrite Z.div_mul by lia.
  destruct q as [|q|q]; try lia.
  replace (Z.pos q * 2) with (Z.pos q~0) by lia. reflexivity.
Qed.

Lemma shr_exact (k : nat) (z : Z) :
  0 < z -> (2 ^ Z.of_nat k | z) ->
  Nat.iter k shr_1 (exact_record z) = exact_record (z / 2 ^ Z.of_nat k).
Proof.
  intros Hz. induction k as [|k IH]; intros Hdiv.
  - cbn. now rewrite Z.div_1_r.
  - rewrite Nat.iter_succ.
    destruct Hdiv as [q Hq].
    assert (Hpow : 2 ^ Z.of_nat (S k) = 2 ^ Z.of_nat k * 2).
    { rewrite Nat2Z.inj_succ, Z.pow_succ_r by lia. lia. }
    rewrite IH.
    2: { exists (q * 2). rewrite Hq, Hpow. ring. }
    assert (Hk : 0 < 2 ^ Z.of_nat k) by (apply Z.pow_pos_nonneg; lia).
    assert (Hzk : z / 2 ^ Z.of_nat k = q * 2).
    { rewrite Hq, Hpow.
      replace (q * (2 ^ Z.of_nat k * 2)) with (q * 2 * 2 ^ Z.of_nat k) by ring.
      apply Z.div_mul. lia. }
    rewrite shr_1_even.
    + f_equal. rewrite Hzk, Z.div_mul by lia.
      rewrite Hq, Hpow.
      replace (q * (2 ^ Z.of_nat k * 2)) with (q * (2 ^ Z.of_nat k * 2)) by ring.
      symmetry. apply Z.div_mul. lia.
    + rewrite Hzk. nia.
    + rewrite Hzk. exists q. reflexivity.
Qed.

(** The number of binary digits. *)
Lemma digits2_size (p : positive) : digits2_pos p = Pos.size p.
Proof. induction p; cbn; congruence. Qed.

Lemma digits_bounds (p : positive) :
  2 ^ (Zpos (digits2_pos p) - 1) <= Zpos p < 2 ^ Zpos (digits2_pos p).
Proof.
  rewrite digits2_size. split.
  - pose proof (Pos.size_le p) as H.
    assert (H2 : 2 ^ Zpos (Pos.size p) <= 2 * Zpos p).
    { rewrite <- Pos2Z.inj_pow. change (2 * Zpos p) with (Zpos p~0).
      apply Pos2Z.pos_le_pos. exact H. }
    replace (Zpos (Pos.size p)) with (Z.succ (Zpos (Pos.size p) - 1)) in H2 by lia.
    rewrite Z.pow_succ_r in H2 by lia. lia.
  - pose proof (Pos.size_gt p) as H.
    rewrite <- Pos2Z.inj_pow. apply Pos2Z.pos_lt_pos. exact H.
Qed.

Lemma digits_unique (z d : Z) :
  0 < d -> 2 ^ (d - 1) <= z < 2 ^ d -> Zdigits2 z = d.
Proof.
  intros Hd Hz.
  assert (Hpos : 0 < z).
  { assert (0 < 2 ^ (d - 1)) by (apply Z.pow_pos_nonneg; lia). lia. }
  destruct z as [|p|p]; try lia. cbn [Zdigits2].
  pose proof (digits_bounds p) as Hp.
  set (d' := Zpos (digits2_pos p)) in *.
  assert (Hd' : 0 < d') by (subst d'; lia).
  destruct (Z.lt_trichotomy d' d) as [Hlt|[Heq|Hgt]]; [|assumption|].
  - assert (2 ^ d' <= 2 ^ (d - 1)) by (apply Z.pow_le_mono_r; lia). lia.
  - assert (2 ^ d <= 2 ^ (d' - 1)) by (apply Z.pow_le_mono_r; lia). lia.
Qed.

Lemma digits_scaled (N t : Z) :
  0 < N -> 0 <= t -> Zdigits2 (N * 2 ^ t) = Zdigits2 N + t.
Proof.
  intros HN Ht. destruct N as [|p|p]; try lia. cbn [Zdigits2].
  pose proof (digits_bounds p) as Hp.
  apply digits_unique; [lia|].
  assert (Ht2 : 0 < 2 ^ t) by (apply Z.pow_pos_nonneg; lia).
  replace (Zpos (digits2_pos p) + t - 1) with (Zpos (digits2_pos p) - 1 + t) by lia.
  rewrite !Z.pow_add_r by lia. nia.
Qed.

Lemma digits_le_prec (N : Z) : 0 < N < 2 ^ 53 -> 0 < Zdigits2 N <= 53.
Proof.
  intros [HN Hlt]. destruct N as [|p|p]; try lia. cbn [Zdigits2].
  pose proof (digits_bounds p) as [Hlo _].
  split; [lia|].
  destruct (Z.le_gt_cases (Zpos (digits2_pos p)) 53) as [H|H]; [assumption|].
  assert (2 ^ 53 <= 2 ^ (Zpos (digits2_pos p) - 1)) by (apply Z.pow_le_mono_r; lia).
  lia.
Qed.

(** Rounding a mantissa [N * 2^t] with [N] below [2^53] is exact in
    binary64: it only drops zeros. *)
Lemma round_scaled (N t e : Z) :
  0 < N < 2 ^ 53 -> 0 <= t -> -1000 <= e -> e + t <= 900 ->
  binary_round_aux 53 1024 false (N * 2 ^ t) e loc_Exact
  = S754_finite false (Z.to_pos (N * 2 ^ Z.min t (53 - Zdigits2 N)))
                (e + t - Z.min t (53 - Zdigits2 N)).
Proof.
  intros HN Ht He Het.
  pose proof (digits_le_prec HN) as HdN.
  assert (Hdig : Zdigits2 (N * 2 ^ t) = Zdigits2 N + t)
    by (apply digits_scaled; lia).
  assert (Hpos : forall u, 0 <= u -> 0 < N * 2 ^ u).
  { intros u Hu. assert (0 < 2 ^ u) by (apply Z.pow_pos_nonneg; lia). nia. }
  unfold binary_round_aux, shr_fexp.
  rewrite Hdig. unfold fexp, emin.
  replace (Z.max (Zdigits2 N + t + e - 53) (3 - 1024 - 53) - e)
    with (Zdigits2 N + t - 53) by lia.
  change (shr_record_of_loc (N * 2 ^ t) loc_Exact) with (exact_record (N * 2 ^ t)).
  destruct (Zdigits2 N + t - 53) as [|p|p] eqn:Hs.
  - (* 53 digits already *)
    cbn [shr exact_record shr_m loc_of_shr_record round_nearest_even].
    rewrite Hdig.
    replace (Z.max (Zdigits2 N + t + e - 53) (3 - 1024 - 53) - e) with 0 by lia.
    cbn [shr shr_record_of_loc shr_m].
    rewrite Z.min_l by lia.
    specialize (Hpos t Ht). destruct (N * 2 ^ t) as [|m|m] eqn:Hm; try lia.
    destruct (Z.leb_spec e (1024 - 53)); [|lia].
    cbn [Z.to_pos]. f_equal. lia.
  - (* more than 53 digits: drop [p] zeros *)
    cbn [shr].
    rewrite iter_pos_nat, shr_exact; try (apply Hpos; lia).
    2: { rewrite positive_nat_Z. exists (N * 2 ^ (t - Zpos p)).
         rewrite <- Z.mul_assoc, <- Z.pow_add_r by lia. do 2 f_equal. lia. }
    rewrite positive_nat_Z.
    assert (Hdiv : N * 2 ^ t / 2 ^ Zpos p = N * 2 ^ (t - Zpos p)).
    { replace (N * 2 ^ t) with (N * 2 ^ (t - Zpos p) * 2 ^ Zpos p).
      - apply Z.div_mul. apply Z.pow_nonzero; lia.
      - rewrite <- Z.mul_assoc, <- Z.pow_add_r by lia. do 2 f_equal. lia. }
    rewrite Hdiv.
    cbn [exact_record shr_m loc_of_shr_record round_nearest_even].
    rewrite digits_scaled by lia.
    replace (Z.max (Zdigits2 N + (t - Zpos p) + (e + Zpos p) - 53) (3 - 1024 - 53)
             - (e + Zpos p)) with 0 by lia.
    cbn [shr shr_record_of_loc shr_m].
    rewrite Z.min_r by lia.
    replace (t - Zpos p) with (53 - Zdigits2 N) by lia.
    specialize (Hpos (53 - Zdigits2 N) ltac:(lia)).
    destruct (N * 2 ^ (53 - Zdigits2 N)) as [|m|m] eqn:Hm; try lia.
    destruct (Z.leb_spec (e + Zpos p) (1024 - 53)); [|lia].
    cbn [Z.to_pos]. f_equal. lia.
  - (* fewer than 53 digits: nothing to drop *)
    cbn [shr exact_record shr_m loc_of_shr_record round_nearest_even].
    rewrite Hdig.
    replace (Z.max (Zdigits2 N + t + e - 53) (3 - 1024 - 53) - e)
      with (Zneg p) by lia.
    cbn [shr shr_record_of_loc shr_m].
    rewrite Z.min_l by lia.
    specialize (Hpos t Ht). destruct (N * 2 ^ t) as [|m|m] eqn:Hm; try lia.
    destruct (Z.leb_spec e (1024 - 53)); [|lia].
    cbn [Z.to_pos]. f_equal. lia.
Qed.

Lemma pos_iter_xO (p k : positive) :
  Zpos (Pos.iter xO p k) = Zpos p * 2 ^ Zpos k.
Proof.
  induction k as [|k IH] using Pos.peano_ind.
  - cbn [Pos.iter]. lia.
  - rewrite Pos.iter_succ, Pos2Z.inj_xO, IH, Pos2Z.inj_succ, Z.pow_succ_r by lia.
    ring.
Qed.

(** The double of an integer below [2^53] is the integer itself, with its
    mantissa shifted to 53 digits. *)
Lemma of_int_exact (r : Z) :
  0 < r < 2 ^ 53 ->
  Binary64.of_int r
  = S754_finite false (Z.to_pos (r * 2 ^ (53 - Zdigits2 r))) (Zdigits2 r - 53).
Proof.
  intros Hr. pose proof (digits_le_prec Hr) as Hd.
  destruct r as [|p|p]; try lia.
  unfold Binary64.of_int, binary_normalize, binary_round, shl_align.
  unfold Binary64.prec, Binary64.emax, fexp, emin.
  cbn [Zdigits2] in *.
  replace (Z.max (Zpos (digits2_pos p) + 0 - 53) (3 - 1024 - 53) - 0)
    with (Zpos (digits2_pos p) - 53) by lia.
  replace (Z.max (Zpos (digits2_pos p) + 0 - 53) (3 - 1024 - 53))
    with (Zpos (digits2_pos p) - 53) by lia.
  destruct (Zpos (digits2_pos p) - 53) as [|k|k] eqn:Hk; try lia.
  - replace (Zpos p) with (Zpos p * 2 ^ 0) at 1 by (rewrite Z.pow_0_r; lia).
    rewrite round_scaled by (cbn [Zdigits2]; lia).
    cbn [Zdigits2]. rewrite Z.min_l by lia.
    replace (53 - Zpos (digits2_pos p)) with 0 by lia.
    f_equal.
  - rewrite pos_iter_xO.
    rewrite round_scaled by (cbn [Zdigits2]; lia).
    cbn [Zdigits2]. rewrite Z.min_l by lia.
    replace (53 - Zpos (digits2_pos p)) with (Zpos k) by lia.
    f_equal. lia.
Qed.

(** The product of a double [K * 2^u * 2^e1] with an integer [r] is exact
    when [K * r] is below [2^53]. *)
Lemma mul_of_int_exact (m1 : positive) (K u e1 r : Z) :
  Zpos m1 = K * 2 ^ u -> 0 < K -> 0 <= u -> 0 < r < 2 ^ 53 -> K * r < 2 ^ 53 ->
  -900 <= e1 -> e1 + u <= 900 ->
  exists a,
    0 <= a
    /\ Binary64.mul (S754_finite false m1 e1) (Binary64.of_int r)
       = S754_finite false (Z.to_pos (K * r * 2 ^ a)) (e1 + u - a).
Proof.
  intros Hm1 HK Hu Hr HKr He1 He1u.
  pose proof (digits_le_prec Hr) as Hd.
  assert (HN : 0 < K * r < 2 ^ 53) by nia.
  pose proof (digits_le_prec HN) as HdN.
  rewrite of_int_exact by assumption.
  unfold Binary64.mul. cbn [SFmul xorb].
  assert (Hrp : 0 < r * 2 ^ (53 - Zdigits2 r)).
  { assert (0 < 2 ^ (53 - Zdigits2 r)) by (apply Z.pow_pos_nonneg; lia). nia. }
  rewrite Pos2Z.inj_mul, Z2Pos.id, Hm1 by assumption.
  replace (K * 2 ^ u * (r * 2 ^ (53 - Zdigits2 r)))
    with (K * r * 2 ^ (u + (53 - Zdigits2 r)))
    by (rewrite Z.pow_add_r by lia; ring).
  rewrite round_scaled by lia.
  exists (Z.min (u + (53 - Zdigits2 r)) (53 - Zdigits2 (K * r))).
  split; [lia|]. f_equal. lia.
Qed.

(** The integer value of such a product. *)
Lemma trunc_scaled (N a : Z) :
  0 < N <= CInt.INT_MAX -> 0 <= a ->
  Binary64.trunc (S754_finite false (Z.to_pos (N * 2 ^ a)) (0 - a)) = Done N.
Proof.
  intros HN Ha.
  assert (Hp : 0 < 2 ^ a) by (apply Z.pow_pos_nonneg; lia).
  unfold Binary64.trunc. rewrite Z2Pos.id by nia.
  destruct (Z.leb_spec 0 (0 - a)).
  - replace (0 - a) with 0 by lia. replace a with 0 by lia.
    rewrite Z.shiftl_0_r, Z.pow_0_r, Z.mul_1_r.
    rewrite in_range_true by int_bounds. reflexivity.
  - rewrite Z.shiftr_div_pow2 by lia.
    replace (- (0 - a)) with a by lia.
    rewrite Z.div_mul by lia.
    rewrite in_range_true by int_bounds. reflexivity.
Qed.

Lemma ceil_scaled (N a g : Z) :
  0 < N < 2 ^ 53 -> 0 <= a -> g <= -24 ->
  exists c, Binary64.ceil_int (S754_finite false (Z.to_pos (N * 2 ^ a)) (g - a)) = Done c.
Proof.
  intros HN Ha Hg.
  assert (Hp : 0 < 2 ^ a) by (apply Z.pow_pos_nonneg; lia).
  unfold Binary64.ceil_int. rewrite Z2Pos.id by nia.
  destruct (Z.leb_spec 0 (g - a)); [lia|].
  rewrite Z.shiftr_div_pow2 by lia.
  replace (- (g - a)) with (a + - g) by lia.
  rewrite Z.pow_add_r by lia.
  replace (- (N * 2 ^ a)) with (- N * 2 ^ a) by ring.
  rewrite <- Z.div_div by (try apply Z.pow_pos_nonneg; lia).
  rewrite Z.div_mul by lia.
  assert (Hq : 0 < 2 ^ (- g)) by (apply Z.pow_pos_nonneg; lia).
  assert (H24 : 2 ^ 24 <= 2 ^ (- g)) by (apply Z.pow_le_mono_r; lia).
  assert (Hb : - 2 ^ 29 <= - N / 2 ^ (- g) <= 0).
  { split.
    - apply Z.div_le_lower_bound; [lia|].
      assert (2 ^ 29 * 2 ^ 24 = 2 ^ 53) by reflexivity. nia.
    - apply Z.div_le_upper_bound; lia. }
  rewrite in_range_true.
  - eexists. reflexivity.
  - change (2 ^ 29) with 536870912 in Hb. int_bounds.
Qed.

Lemma literal_0_2 : Binary32.literal 2 10 = S754_finite false 13421773 (-26).
Proof. vm_compute. reflexivity. Qed.

Lemma literal_0_5 : Binary32.literal 5 10 = S754_finite false 8388608 (-24).
Proof. vm_compute. reflexivity. Qed.

Lemma double_5 : Binary64.of_int 5 = S754_finite false 5629499534213120 (-50).
Proof. vm_compute. reflexivity. Qed.

Context {F : Type} {A : SampleArith F}.

(** X10. At every integer sample rate [r] from 0 Hz to 429496729 Hz (the
    last one whose fivefold is an [int]) [instantiate] returns an instance
    whose fade has [r] samples and whose loop has [5 * r]: the loop fits the
    tapes exactly when the rate is at most 192000 Hz, and for a rate of at
    least 1 Hz the fade is shorter than the loop. *)
Theorem instantiate_at_integer_rates (r : Z) :
  0 <= r <= 429496729 ->
  exists self : BollieRetain F,
    instantiate (Binary64.of_int r) = Done self
    /\ n_fade_samples self = r
    /\ n_loop_samples self = 5 * r
    /\ (n_loop_samples self <= MAX_TAPE_LEN <-> r <= 192000)
    /\ (1 <= r -> 0 <= n_fade_samples self < n_loop_samples self).
Proof.
  intros Hr. unfold instantiate.
  assert (Hend : forall n_fade n_loop : Z,
             n_fade = r -> n_loop = 5 * r ->
             exists self : BollieRetain F,
               Done {| rate := Binary64.of_int r;
                       n_loop_samples := n_loop;
                       n_fade_samples := n_fade;
                       pos_w := 0; pos_r := 0;
                       listening := false; looping := false;
                       dry_gain := f_of_int 0; wet_gain := f_of_int 0;
                       buffer_l := fun _ => f_of_int 0;
                       buffer_r := fun _ => f_of_int 0 |} = Done self
               /\ n_fade_samples self = r
               /\ n_loop_samples self = 5 * r
               /\ (n_loop_samples self <= MAX_TAPE_LEN <-> r <= 192000)
               /\ (1 <= r -> 0 <= n_fade_samples self < n_loop_samples self)).
  { intros n_fade n_loop -> ->. eexists. split; [reflexivity|].
    cbn [n_fade_samples n_loop_samples]. unfold MAX_TAPE_LEN.
    repeat split; lia. }
  destruct (Z.eq_dec r 0) as [->|Hr0].
  - change (Binary64.of_int 0) with (S754_zero false).
    rewrite literal_0_2, literal_0_5, double_5.
    cbn [Binary64.mul SFmul xorb Binary64.ceil_int Binary64.trunc res_bind].
    apply Hend; reflexivity.
  - assert (Hr53 : 0 < r < 2 ^ 53).
    { assert (429496729 < 2 ^ 53) by reflexivity. lia. }
    assert (H29 : 2 ^ 53 = 9007199254740992) by reflexivity.
    rewrite literal_0_2, literal_0_5, double_5.
    destruct (@mul_of_int_exact 13421773 13421773 0 (-26) r)
      as (a1 & Ha1 & ->); try lia; try reflexivity.
    destruct (@ceil_scaled (13421773 * r) a1 (-26 + 0)) as [c1 Hc1]; try lia.
    rewrite Hc1. cbn [res_bind].
    rewrite of_int_exact by assumption.
    pose proof (digits_le_prec Hr53) as Hd.
    replace (Zdigits2 r - 53) with (0 - (53 - Zdigits2 r)) by lia.
    rewrite trunc_scaled by int_bounds. cbn [res_bind].
    replace (0 - (53 - Zdigits2 r)) with (Zdigits2 r - 53) by lia.
    rewrite <- of_int_exact by assumption.
    destruct (@mul_of_int_exact 8388608 8388608 0 (-24) r)
      as (a2 & Ha2 & ->); try lia; try reflexivity.
    destruct (@ceil_scaled (8388608 * r) a2 (-24 + 0)) as [c2 Hc2]; try lia.
    rewrite Hc2. cbn [res_bind].
    destruct (@mul_of_int_exact 5629499534213120 5 50 (-50) r)
      as (a3 & Ha3 & ->); try lia; try reflexivity.
    replace (-50 + 50 - a3) with (0 - a3) by lia.
    rewrite trunc_scaled by int_bounds. cbn [res_bind].
    apply Hend; reflexivity.
Qed.

End ExactProducts.

(** * The port connections *)

Section PortConnections.

Import Ports.

Lemma of_index_none (port : N) : (5 < port)%N -> of_index port = None.
Proof.
  intros H. unfold of_index.
  destruct port as [|[[[|[]|]|[[]|[]|]|]|[[|[]|]|[[]|[]|]|]|]]; try reflexivity; lia.
Qed.

(** X11. [connect_port] changes the pointer of the port it is called for
    and no other: the port reads back the new pointer, the five others keep
    theirs, and a port index above 5 changes nothing at all. *)
Theorem connect_port_sets_one_port (P : Type) (self : ports P) (port : N) (data : P) :
  (forall p, of_index port = Some p ->
     pointer (connect_port self port data) p = data
     /\ forall q, q <> p -> pointer (connect_port self port data) q = pointer self q)
  /\ ((5 < port)%N -> connect_port self port data = self).
Proof.
  split.
  - intros p Hp. unfold connect_port. rewrite Hp.
    split; [destruct p; reflexivity|].
    intros q Hq. destruct p, q; try reflexivity; contradiction.
  - intros H. unfold connect_port. now rewrite of_index_none.
Qed.

End PortConnections.

(** * Witnesses of the statements about whole blocks *)

Section BlockWitnesses.

Import Fixture.

Lemma trigger_down : f_ltb (f_of_int 0) 0%R = false.
Proof. cbn. destruct (Rlt_dec 0 0)%R; [lra|reflexivity]. Qed.

Lemma trigger_up : f_ltb (f_of_int 0) 1%R = true.
Proof. cbn. destruct (Rlt_dec 0 1)%R; [reflexivity|lra]. Qed.

Ltac fixture_bounds :=
  unfold capturing, playing, six;
  cbn [n_fade_samples n_loop_samples pos_w pos_r listening looping length
       Z.of_nat Pos.of_succ_nat Pos.succ];
  first [reflexivity | exact trigger_down | int_bounds | lia].

Lemma capture_block_stores_input_witness :
  exists b,
    run Ideal.powf capturing 25%R 0%R six six 5 = Done b
    /\ pos_w (final b) = pos_w capturing + Z.of_nat 5
    /\ pos_r (final b) = pos_r capturing.
Proof.
  destruct (@capture_block_stores_input R Exact.arith Ideal.powf capturing 25%R 0%R
              six six 5) as (b & Hrun & Hw & Hr & _); try fixture_bounds.
  exists b. repeat split; assumption.
Defined.

Lemma capture_block_output_is_dry_witness :
  exists b,
    run Ideal.powf capturing 25%R 0%R six six 5 = Done b
    /\ exists x_l x_r,
         nth_error six 0 = Some x_l /\ nth_error six 0 = Some x_r
         /\ nth_error (output_l b) 0
            = Some (mix x_l (f_of_int 0)
                      (Nat.iter 1 (smooth (fst (gain_targets Ideal.powf 25%R)))
                                (dry_gain capturing))
                      (Nat.iter 1 (smooth (snd (gain_targets Ideal.powf 25%R)))
                                (wet_gain capturing)))
         /\ nth_error (output_r b) 0
            = Some (mix x_r (f_of_int 0)
                      (Nat.iter 1 (smooth (fst (gain_targets Ideal.powf 25%R)))
                                (dry_gain capturing))
                      (Nat.iter 1 (smooth (snd (gain_targets Ideal.powf 25%R)))
                                (wet_gain capturing))).
Proof.
  destruct (@capture_block_output_is_dry R Exact.arith Ideal.powf capturing 25%R 0%R
              six six 5) as (b & Hrun & Hout); try fixture_bounds.
  exists b. split; [assumption|]. apply (Hout 0%nat). lia.
Defined.

Lemma capture_completes_witness :
  exists b,
    run Ideal.powf capturing 25%R 0%R six six (5 + 1) = Done b
    /\ listening (final b) = false /\ looping (final b) = true
    /\ pos_w (final b) = 0.
Proof.
  destruct (@capture_completes R Exact.arith Ideal.powf capturing 25%R 0%R
              six six 5) as (b & Hrun & Hl & Hp & Hw & _); try fixture_bounds.
  exists b. repeat split; assumption.
Defined.

Lemma playback_block_keeps_tape_witness :
  exists b,
    run Ideal.powf playing 25%R 0%R six six 6 = Done b
    /\ buffer_l (final b) = buffer_l playing /\ buffer_r (final b) = buffer_r playing
    /\ pos_w (final b) = pos_w playing
    /\ listening (final b) = false /\ looping (final b) = true.
Proof.
  destruct (@playback_block_keeps_tape R Exact.arith Ideal.powf playing 25%R 0%R
              six six 6) as (b & Hrun & Hbl & Hbr & Hw & Hl & Hp & _);
    try fixture_bounds.
  exists b. repeat split; assumption.
Defined.

Lemma playback_block_output_witness :
  exists b,
    run Ideal.powf playing 25%R 0%R six six 6 = Done b
    /\ length (output_l b) = 6%nat /\ length (output_r b) = 6%nat.
Proof.
  destruct (@playback_block_output R Exact.arith Ideal.powf playing 25%R 0%R
              six six 6) as (b & Hrun & Hl & Hr & _);
    try fixture_bounds.
  exists b. repeat split; assumption.
Defined.


Lemma playback_period_witness :
  exists b,
    run Ideal.powf playing 25%R 0%R six six 4 = Done b
    /\ pos_r (final b) = pos_r playing.
Proof.
  destruct (@playback_period R Exact.arith Ideal.powf playing 25%R 0%R
              six six 4) as (b & Hrun & Hr & _); try fixture_bounds.
  exists b. split; assumption.
Defined.

Lemma trigger_waits_for_loop_end_witness :
  exists b,
    run Ideal.powf playing 25%R 1%R six six 3 = Done b
    /\ buffer_l (final b) = buffer_l playing /\ buffer_r (final b) = buffer_r playing
    /\ pos_w (final b) = pos_w playing
    /\ listening (final b) = true.
Proof.
  destruct (@trigger_waits_for_loop_end R Exact.arith Ideal.powf playing 25%R 1%R
              six six 3) as (b & Hrun & Hbl & Hbr & Hw & Hl & _);
    try fixture_bounds.
  - left. exact trigger_up.
  - exists b. repeat split; assumption.
Defined.

Lemma run_split_witness :
  run Ideal.powf playing 25%R 0%R six six (2 + 3)
  = res_bind (run Ideal.powf playing 25%R 0%R six six 2) (fun b1 =>
    res_bind (run Ideal.powf (final b1) 25%R 0%R (skipn 2 six) (skipn 2 six) 3) (fun b2 =>
    Done {| final := final b2;
            output_l := output_l b1 ++ output_l b2;
            output_r := output_r b1 ++ output_r b2;
            accesses := accesses b1 ++ accesses b2 |})).
Proof.
  exact (@run_split R Exact.arith Ideal.powf playing 25%R 0%R six six 2 3 trigger_down).
Defined.

Lemma session_stays_safe_witness :
  exists self' bs,
    session Ideal.powf (activate capturing) calls = Done (self', bs)
    /\ 0 <= pos_w self' <= n_loop_samples capturing
    /\ 0 <= pos_r self' < n_loop_samples capturing
    /\ listening self' || looping self' = true.
Proof.
  destruct (@session_stays_safe R Exact.arith Ideal.powf capturing calls)
    as (self' & bs & Hses & _ & _ & _ & Hw & Hr & Hph); try fixture_bounds.
  - unfold calls, block_sized.
    repeat constructor; cbn [hb_n_samples hb_input_l hb_input_r six length]; lia.
  - exists self', bs. repeat split; assumption || apply Hw || apply Hr.
Defined.

Lemma instantiate_at_integer_rates_witness :
  exists self : BollieRetain spec_float,
    instantiate (Binary64.of_int 48000) = Done self
    /\ n_fade_samples self = 48000
    /\ n_loop_samples self = 5 * 48000
    /\ (n_loop_samples self <= MAX_TAPE_LEN <-> 48000 <= 192000)
    /\ (1 <= 48000 -> 0 <= n_fade_samples self < n_loop_samples self).
Proof.
  apply (@instantiate_at_integer_rates spec_float Binary32.arith 48000). lia.
Defined.

End BlockWitnesses.
